(** * DAMON primitives for the physical address space (mm/damon/paddr.c)

    A shallow embedding of the round cache, of the access-check engine and
    of the reclaim executor of [paddr.c], and the properties of them that
    the specification states.

    Conventions.  C integers are [Z] with the wrap-around written out
    ([ulong], [uint]).  A pointer into [damon_pa_cache] is the index of the
    slot it points to.  The file-scope statics, the state of the page
    subsystem the file calls into, the pseudo-random source and the log of
    the calls that leave the file are the fields of one [world] that every
    function threads. *)

From Stdlib Require Import ZArith Lia List Bool.
From stdpp Require Import base list gmap.

Local Open Scope Z_scope.

(** ** Machine integers and architecture constants *)

Definition BITS_PER_LONG : Z := 64.

(** [unsigned long] and [unsigned int] arithmetic wraps. *)
Definition ulong (x : Z) : Z := x mod 2 ^ BITS_PER_LONG.
Definition uint (x : Z) : Z := x mod 2 ^ 32.

Definition ULONG_MAX : Z := 2 ^ BITS_PER_LONG - 1.

(** Page geometry of the 64-bit targets this tree builds for (4 KiB base
    pages, 2 MiB PMD mappings); these come from the architecture headers. *)
Definition PAGE_SHIFT : Z := 12.
Definition PAGE_SIZE : Z := Z.shiftl 1 PAGE_SHIFT.
Definition HPAGE_PMD_SHIFT : Z := 21.

Definition PHYS_PFN (x : Z) : Z := Z.shiftr x PAGE_SHIFT.

(** [hash_long] of include/linux/hash.h on a 64-bit kernel: the
    multiplicative hash with the 64-bit golden ratio, keeping the top
    [bits] bits. *)
Definition GOLDEN_RATIO_64 : Z := 0x61C8864680B583EB.

Definition hash_long (val bits : Z) : Z :=
  Z.shiftr (ulong (val * GOLDEN_RATIO_64)) (BITS_PER_LONG - bits).

(** ** The round cache *)

Definition DAMON_PA_CACHE_BITS : Z := 8.
Definition DAMON_PA_CACHE_SIZE : Z := Z.shiftl 1 DAMON_PA_CACHE_BITS.
Definition DAMON_PA_CACHE_PROBES : Z := 4.

(** [struct damon_pa_cache_ent]. *)
Record damon_pa_cache_ent := {
  ent_gen : Z;
  ent_pfn : Z;
  ent_page_sz : Z;          (* 0 means 'young' not computed yet *)
  ent_accessed : bool;
  ent_mkold_done : bool
}.

(** A static object is zero-initialised. *)
Definition zero_ent : damon_pa_cache_ent :=
  {| ent_gen := 0; ent_pfn := 0; ent_page_sz := 0;
     ent_accessed := false; ent_mkold_done := false |}.

#[global] Instance damon_pa_cache_ent_inhabited : Inhabited damon_pa_cache_ent :=
  populate zero_ent.

(** ** The page subsystem, as far as the file looks into it

    What [damon_get_page], the page flag tests, [trylock_page], [rmap_walk]
    and [page_vma_mapped_walk] answer is state of the kernel outside this
    file.  It is modelled as data: a frame number resolves to at most one
    [page]; a page carries the flags the file tests and the mappings a
    reverse-map walk of it visits, grouped by VMA. *)

(** One position at which [page_vma_mapped_walk] stops. *)
Record pvmw_hit := {
  hit_pte : bool;              (* [pvmw.pte] is set; otherwise a PMD mapping *)
  hit_young : bool;            (* [pte_young] / [pmd_young] *)
  hit_notifier_young : bool    (* what the MMU notifiers report as young *)
}.

Record page := {
  page_mapped : bool;
  page_rmapping : bool;
  page_is_idle : bool;
  page_is_young : bool;
  PageReferenced : bool;
  PageAnon : bool;
  PageKsm : bool;
  page_trylock : bool;         (* [trylock_page] would succeed *)
  isolate_busy : bool;         (* [isolate_lru_page] would fail (non-zero) *)
  PageUnevictable : bool;
  page_reclaimable : bool;     (* [reclaim_pages] would reclaim it *)
  page_rmap : list (list pvmw_hit)
}.

(** ** Calls that leave the file *)

Inductive event :=
| EvMkold (paddr : Z)            (* [damon_pa_mkold(paddr)] *)
| EvYoung (paddr : Z)            (* [damon_pa_young(paddr, _)] *)
| EvGetPage (pfn : Z)            (* [damon_get_page] in the reclaim scan *)
| EvClearReferenced (pfn : Z)    (* [ClearPageReferenced], [test_and_clear_page_young] *)
| EvIsolate (pfn : Z)            (* [isolate_lru_page] *)
| EvPutback (pfn : Z)            (* [putback_lru_page] *)
| EvReclaim (pfns : list Z)      (* [reclaim_pages] on the collected list *)
| EvCondResched.                 (* [cond_resched] *)

(** ** The state all functions thread *)

Record world := {
  damon_pa_cache : list damon_pa_cache_ent;
  damon_pa_cache_gen : Z;
  mm : gmap Z page;
  prandom : nat -> Z;            (* the outputs of [prandom_u32], in order *)
  prandom_pos : nat;             (* how many of them have been drawn *)
  trace : list event             (* oldest first *)
}.

Definition set_cache (w : world) (c : list damon_pa_cache_ent) : world :=
  {| damon_pa_cache := c; damon_pa_cache_gen := damon_pa_cache_gen w;
     mm := mm w; prandom := prandom w; prandom_pos := prandom_pos w;
     trace := trace w |}.

Definition set_gen (w : world) (g : Z) : world :=
  {| damon_pa_cache := damon_pa_cache w; damon_pa_cache_gen := g;
     mm := mm w; prandom := prandom w; prandom_pos := prandom_pos w;
     trace := trace w |}.

Definition set_mm (w : world) (m : gmap Z page) : world :=
  {| damon_pa_cache := damon_pa_cache w;
     damon_pa_cache_gen := damon_pa_cache_gen w;
     mm := m; prandom := prandom w; prandom_pos := prandom_pos w;
     trace := trace w |}.

Definition log (w : world) (e : event) : world :=
  {| damon_pa_cache := damon_pa_cache w;
     damon_pa_cache_gen := damon_pa_cache_gen w;
     mm := mm w; prandom := prandom w; prandom_pos := prandom_pos w;
     trace := trace w ++ [e] |}.

(** The state at boot: statics zeroed, nothing logged. *)
Definition boot (m : gmap Z page) (rnd : nat -> Z) : world :=
  {| damon_pa_cache := replicate (Z.to_nat DAMON_PA_CACHE_SIZE) zero_ent;
     damon_pa_cache_gen := 0; mm := m; prandom := rnd; prandom_pos := 0%nat;
     trace := [] |}.

(** *** Probe window *)

(** [&damon_pa_cache[(idx + i) & (DAMON_PA_CACHE_SIZE - 1)]]. *)
Definition slot (idx i : Z) : nat :=
  Z.to_nat (Z.land (idx + i) (DAMON_PA_CACHE_SIZE - 1)).

(** The slots the loop [for (i = 0; i < DAMON_PA_CACHE_PROBES; i++)] visits,
    in order. *)
Definition probe_window (pfn : Z) : list nat :=
  let idx := hash_long pfn DAMON_PA_CACHE_BITS in
  map (slot idx) (seqZ 0 DAMON_PA_CACHE_PROBES).

Definition live (w : world) (e : damon_pa_cache_ent) : bool :=
  ent_gen e =? damon_pa_cache_gen w.

(** [damon_pa_cache_lookup]: the first slot of the window that is live and
    holds [pfn]; [None] is the NULL result. *)
Definition damon_pa_cache_lookup (w : world) (pfn : Z) : option nat :=
  find (fun s => let e := damon_pa_cache w !!! s in
                 live w e && (ent_pfn e =? pfn))
       (probe_window pfn).

(** [damon_pa_cache_get_slot]: the first stale slot of the window, or the
    first slot of the window when none is stale. *)
Definition damon_pa_cache_get_slot (w : world) (pfn : Z) : nat :=
  let idx := hash_long pfn DAMON_PA_CACHE_BITS in
  match find (fun s => negb (live w (damon_pa_cache w !!! s)))
             (probe_window pfn) with
  | Some s => s
  | None => Z.to_nat (Z.land idx (DAMON_PA_CACHE_SIZE - 1))
  end.

(** [damon_pa_cache_round_begin]. *)
Definition damon_pa_cache_round_begin (w : world) : world :=
  let g := ulong (damon_pa_cache_gen w + 1) in
  set_gen w (if g =? 0 then 1 else g).

(** The five stores through the pointer [e] that follow every
    [damon_pa_cache_get_slot] in the file:
    [e->gen = damon_pa_cache_gen; e->pfn = ...; e->page_sz = ...;
     e->accessed = ...; e->mkold_done = true]. *)
Definition cache_fill (w : world) (e : nat) (pfn page_sz : Z) (accessed : bool)
  : world :=
  set_cache w (<[e := {| ent_gen := damon_pa_cache_gen w; ent_pfn := pfn;
                         ent_page_sz := page_sz; ent_accessed := accessed;
                         ent_mkold_done := true |}]> (damon_pa_cache w)).

(** ** Page operations the file calls (models of kernel code outside it) *)

Definition set_page_idle (p : page) : page :=
  {| page_mapped := page_mapped p; page_rmapping := page_rmapping p;
     page_is_idle := true; page_is_young := page_is_young p;
     PageReferenced := PageReferenced p; PageAnon := PageAnon p;
     PageKsm := PageKsm p; page_trylock := page_trylock p;
     isolate_busy := isolate_busy p; PageUnevictable := PageUnevictable p;
     page_reclaimable := page_reclaimable p; page_rmap := page_rmap p |}.

Definition set_page_young (p : page) : page :=
  {| page_mapped := page_mapped p; page_rmapping := page_rmapping p;
     page_is_idle := page_is_idle p; page_is_young := true;
     PageReferenced := PageReferenced p; PageAnon := PageAnon p;
     PageKsm := PageKsm p; page_trylock := page_trylock p;
     isolate_busy := isolate_busy p; PageUnevictable := PageUnevictable p;
     page_reclaimable := page_reclaimable p; page_rmap := page_rmap p |}.

(** [ClearPageReferenced] followed by [test_and_clear_page_young]. *)
Definition clear_page_refs (p : page) : page :=
  {| page_mapped := page_mapped p; page_rmapping := page_rmapping p;
     page_is_idle := page_is_idle p; page_is_young := false;
     PageReferenced := false; PageAnon := PageAnon p;
     PageKsm := PageKsm p; page_trylock := page_trylock p;
     isolate_busy := isolate_busy p; PageUnevictable := PageUnevictable p;
     page_reclaimable := page_reclaimable p; page_rmap := page_rmap p |}.

Definition set_page_rmap (p : page) (r : list (list pvmw_hit)) : page :=
  {| page_mapped := page_mapped p; page_rmapping := page_rmapping p;
     page_is_idle := page_is_idle p; page_is_young := page_is_young p;
     PageReferenced := PageReferenced p; PageAnon := PageAnon p;
     PageKsm := PageKsm p; page_trylock := page_trylock p;
     isolate_busy := isolate_busy p; PageUnevictable := PageUnevictable p;
     page_reclaimable := page_reclaimable p; page_rmap := r |}.

(** [damon_get_page]: the page of a frame, when the frame has one that can
    be pinned. *)
Definition damon_get_page (w : world) (pfn : Z) : option page := mm w !! pfn.

(** [damon_ptep_mkold] and [damon_pmdp_mkold] (prmtv-common.c): clear the
    young bit of the mapping and of the notifiers, remember on the page that
    it had been referenced, and set the page idle. *)
Definition hit_referenced (h : pvmw_hit) : bool :=
  hit_young h || hit_notifier_young h.

Definition clear_hit (h : pvmw_hit) : pvmw_hit :=
  {| hit_pte := hit_pte h; hit_young := false; hit_notifier_young := false |}.

Definition damon_mkold_hit (p : page) (h : pvmw_hit) : page * pvmw_hit :=
  let referenced := hit_referenced h in
  (set_page_idle (if referenced then set_page_young p else p), clear_hit h).

(** ** Marking a frame cold *)

(** [__damon_pa_mkold]: the [while (page_vma_mapped_walk(&pvmw))] loop over
    the mappings of the page in one VMA; it always returns true, so the
    reverse-map walk goes on to the next VMA. *)
Fixpoint __damon_pa_mkold (p : page) (vma : list pvmw_hit)
  : page * list pvmw_hit :=
  match vma with
  | [] => (p, [])
  | h :: vma' =>
      let '(p1, h') := damon_mkold_hit p h in
      let '(p2, vma'') := __damon_pa_mkold p1 vma' in
      (p2, h' :: vma'')
  end.

(** [rmap_walk(page, &rwc)] with [rwc.rmap_one = __damon_pa_mkold]. *)
Fixpoint rmap_walk_mkold (p : page) (vmas : list (list pvmw_hit))
  : page * list (list pvmw_hit) :=
  match vmas with
  | [] => (p, [])
  | vma :: vmas' =>
      let '(p1, vma') := __damon_pa_mkold p vma in
      let '(p2, vmas'') := rmap_walk_mkold p1 vmas' in
      (p2, vma' :: vmas'')
  end.

(** What [damon_pa_mkold] does to the page it resolved. *)
Definition damon_pa_mkold_page (p : page) : page :=
  if negb (page_mapped p) || negb (page_rmapping p) then set_page_idle p
  else
    let need_lock := negb (PageAnon p) || PageKsm p in
    if need_lock && negb (page_trylock p) then p
    else
      let '(p', vmas') := rmap_walk_mkold p (page_rmap p) in
      set_page_rmap p' vmas'.

(** What [damon_pa_mkold] does to the page subsystem. *)
Definition damon_pa_mkold_mm (m : gmap Z page) (pfn : Z) : gmap Z page :=
  match m !! pfn with
  | None => m
  | Some p => <[pfn := damon_pa_mkold_page p]> m
  end.

(** [damon_pa_mkold]. *)
Definition damon_pa_mkold (w : world) (paddr : Z) : world :=
  let w := log w (EvMkold paddr) in
  set_mm w (damon_pa_mkold_mm (mm w) (PHYS_PFN paddr)).

(** ** Testing whether a frame is hot *)

(** [struct damon_pa_access_chk_result]. *)
Record damon_pa_access_chk_result := {
  res_page_sz : Z;
  res_accessed : bool
}.

(** The [while (page_vma_mapped_walk(&pvmw))] loop of [__damon_pa_young]
    (with CONFIG_TRANSPARENT_HUGEPAGE); it stops at the first mapping found
    accessed. *)
Fixpoint young_walk (p : page) (vma : list pvmw_hit)
    (result : damon_pa_access_chk_result) : damon_pa_access_chk_result :=
  match vma with
  | [] => result
  | h :: vma' =>
      let acc := hit_young h || negb (page_is_idle p) || hit_notifier_young h in
      let result :=
        if hit_pte h
        then {| res_page_sz := res_page_sz result; res_accessed := acc |}
        else {| res_page_sz := Z.shiftl 1 HPAGE_PMD_SHIFT;
                res_accessed := acc |} in
      if res_accessed result then result else young_walk p vma' result
  end.

(** [__damon_pa_young]: the result through [arg], and the return value
    "go on walking". *)
Definition __damon_pa_young (p : page) (vma : list pvmw_hit)
  : bool * damon_pa_access_chk_result :=
  let result :=
    young_walk p vma {| res_page_sz := PAGE_SIZE; res_accessed := false |} in
  (negb (res_accessed result), result).

(** [rmap_walk(page, &rwc)] with [rwc.rmap_one = __damon_pa_young]: the walk
    ends when [rmap_one] returns false. *)
Fixpoint rmap_walk_young (p : page) (vmas : list (list pvmw_hit))
    (result : damon_pa_access_chk_result) : damon_pa_access_chk_result :=
  match vmas with
  | [] => result
  | vma :: vmas' =>
      let '(go_on, result) := __damon_pa_young p vma in
      if go_on then rmap_walk_young p vmas' result else result
  end.

(** The part of [damon_pa_young] that depends on the page subsystem only:
    the return value and the value of [*page_sz] at return, given its
    value at the call. *)
Definition damon_pa_young_mm (m : gmap Z page) (pfn : Z) (page_sz : Z)
  : bool * Z :=
  let result := {| res_page_sz := PAGE_SIZE; res_accessed := false |} in
  match m !! pfn with
  | None => (false, page_sz)
  | Some p =>
      if negb (page_mapped p) || negb (page_rmapping p) then
        let result :=
          if page_is_idle p
          then {| res_page_sz := res_page_sz result; res_accessed := false |}
          else {| res_page_sz := res_page_sz result; res_accessed := true |} in
        (res_accessed result, res_page_sz result)
      else
        let need_lock := negb (PageAnon p) || PageKsm p in
        if need_lock && negb (page_trylock p) then (false, PAGE_SIZE)
        else
          let result := rmap_walk_young p (page_rmap p) result in
          (res_accessed result, res_page_sz result)
  end.

(** [damon_pa_young]. *)
Definition damon_pa_young (w : world) (paddr : Z) (page_sz : Z)
  : world * (bool * Z) :=
  (log w (EvYoung paddr), damon_pa_young_mm (mm w) (PHYS_PFN paddr) page_sz).

(** ** Regions, targets, contexts *)

(** [struct damon_region], the fields the file uses. *)
Record damon_region := {
  ar_start : Z;
  ar_end : Z;
  sampling_addr : Z;      (* unsigned long *)
  nr_accesses : Z         (* unsigned int *)
}.

(** A target is the list of its regions and a context the list of its
    targets, in the order [damon_for_each_region] and
    [damon_for_each_target] visit them. *)
Definition damon_target := list damon_region.
Definition damon_ctx := list damon_target.

(** [prandom_u32_max] (include/linux/prandom.h) on the draw [u]. *)
Definition prandom_u32_max (u ep_ro : Z) : Z :=
  uint (Z.shiftr (uint u * uint ep_ro) 32).

(** [damon_rand(l, r)] (include/linux/damon.h):
    [l + prandom_u32_max(r - l)]. *)
Definition damon_rand (w : world) (l r : Z) : world * Z :=
  let u := prandom w (prandom_pos w) in
  ({| damon_pa_cache := damon_pa_cache w;
      damon_pa_cache_gen := damon_pa_cache_gen w;
      mm := mm w; prandom := prandom w; prandom_pos := S (prandom_pos w);
      trace := trace w |},
   ulong (l + prandom_u32_max u (r - l))).

Definition set_sampling_addr (r : damon_region) (a : Z) : damon_region :=
  {| ar_start := ar_start r; ar_end := ar_end r; sampling_addr := a;
     nr_accesses := nr_accesses r |}.

(** [r->nr_accesses++]. *)
Definition inc_nr_accesses (r : damon_region) : damon_region :=
  {| ar_start := ar_start r; ar_end := ar_end r;
     sampling_addr := sampling_addr r;
     nr_accesses := uint (nr_accesses r + 1) |}.

(** One loop over a list whose body updates the state and the element. *)
Fixpoint for_each {S A : Type} (body : S -> A -> S * A) (s : S) (l : list A)
  : S * list A :=
  match l with
  | [] => (s, [])
  | x :: l' =>
      let '(s1, x') := body s x in
      let '(s2, l'') := for_each body s1 l' in
      (s2, x' :: l'')
  end.

(** ** The access-check engine *)

(** [__damon_pa_prepare_access_check]. *)
Definition __damon_pa_prepare_access_check (w : world) (r : damon_region)
  : world * damon_region :=
  let '(w, a) := damon_rand w (ar_start r) (ar_end r) in
  let r := set_sampling_addr r a in
  let pfn := PHYS_PFN (sampling_addr r) in
  (* Deduplicate mkold within the round to avoid repeated rmap walks. *)
  let e := damon_pa_cache_lookup w pfn in
  match e with
  | Some e =>
      if ent_mkold_done (damon_pa_cache w !!! e) then (w, r)
      else
        let w := damon_pa_mkold w (sampling_addr r) in
        let e := damon_pa_cache_get_slot w pfn in
        (cache_fill w e pfn 0 false, r)
  | None =>
      let w := damon_pa_mkold w (sampling_addr r) in
      let e := damon_pa_cache_get_slot w pfn in
      (cache_fill w e pfn 0 false, r)
  end.

(** [damon_pa_prepare_access_checks]. *)
Definition damon_pa_prepare_access_checks (w : world) (ctx : damon_ctx)
  : world * damon_ctx :=
  let w := damon_pa_cache_round_begin w in
  for_each (for_each __damon_pa_prepare_access_check) w ctx.

(** [npages = page_sz >> PAGE_SHIFT; base_pfn = pfn & ~(npages - 1)]. *)
Definition huge_base_pfn (pfn page_sz : Z) : Z :=
  let npages := Z.shiftr page_sz PAGE_SHIFT in
  Z.land pfn (ulong (Z.lnot (ulong (npages - 1)))).

(** The slow path of [__damon_pa_check_access], from the call of
    [damon_pa_young] on. *)
Definition check_access_slow (w : world) (r : damon_region)
  : world * damon_region :=
  let pfn := PHYS_PFN (sampling_addr r) in
  let '(w, (accessed, page_sz)) :=
    damon_pa_young w (sampling_addr r) PAGE_SIZE in
  (* Cache the computed result for this round. *)
  let e := damon_pa_cache_get_slot w pfn in
  let w := cache_fill w e pfn page_sz accessed in
  (* For huge mappings, also cache the base PFN. *)
  let w :=
    if PAGE_SIZE <? page_sz then
      let base_pfn := huge_base_pfn pfn page_sz in
      let e := damon_pa_cache_get_slot w base_pfn in
      cache_fill w e base_pfn page_sz accessed
    else w in
  (w, if accessed then inc_nr_accesses r else r).

(** [__damon_pa_check_access]. *)
Definition __damon_pa_check_access (w : world) (r : damon_region)
  : world * damon_region :=
  let pfn := PHYS_PFN (sampling_addr r) in
  (* Fast-path: reuse 'young' result if already computed for this PFN. *)
  let e := damon_pa_cache_lookup w pfn in
  match e with
  | Some e =>
      if negb (ent_page_sz (damon_pa_cache w !!! e) =? 0) then
        let accessed := ent_accessed (damon_pa_cache w !!! e) in
        (w, if accessed then inc_nr_accesses r else r)
      else check_access_slow w r
  | None => check_access_slow w r
  end.

(** The body of the inner loop of [damon_pa_check_accesses]; the state of
    the loop is the world and [max_nr_accesses]. *)
Definition check_accesses_body (s : world * Z) (r : damon_region)
  : (world * Z) * damon_region :=
  let '(w, max_nr_accesses) := s in
  let '(w, r) := __damon_pa_check_access w r in
  ((w, Z.max (nr_accesses r) max_nr_accesses), r).

(** [damon_pa_check_accesses]: the world and the regions after the call, and
    the value returned. *)
Definition damon_pa_check_accesses (w : world) (ctx : damon_ctx)
  : world * damon_ctx * Z :=
  let '((w, max_nr_accesses), ctx) :=
    for_each (for_each check_accesses_body) (w, 0) ctx in
  (w, ctx, max_nr_accesses).

(** ** The reclaim executor *)

(** [enum damos_action] (include/linux/damon.h). *)
Inductive damos_action :=
| DAMOS_WILLNEED | DAMOS_COLD | DAMOS_PAGEOUT
| DAMOS_HUGEPAGE | DAMOS_NOHUGEPAGE | DAMOS_STAT.

#[global] Instance damos_action_eq_dec : EqDecision damos_action.
Proof. solve_decision. Defined.

(** [struct damos], the field the file uses. *)
Record damos := { action : damos_action }.

(** The body of the [for] loop of [damon_pa_apply_scheme] at [addr];
    [page_list] holds the frames of the pages isolated so far, the latest
    first ([list_add] inserts at the head). *)
Definition pageout_scan_body (w : world) (addr : Z) (page_list : list Z)
  : world * list Z :=
  let pfn := PHYS_PFN addr in
  let w := log w (EvGetPage pfn) in
  match damon_get_page w pfn with
  | None => (w, page_list)
  | Some p =>
      let w := set_mm w (<[pfn := clear_page_refs p]> (mm w)) in
      let w := log w (EvClearReferenced pfn) in
      let w := log w (EvIsolate pfn) in
      if isolate_busy p then (w, page_list)
      else if PageUnevictable p then (log w (EvPutback pfn), page_list)
      else (w, pfn :: page_list)
  end.

(** [for (addr = r->ar.start; addr < r->ar.end; addr += PAGE_SIZE)].  The
    addition wraps, so the loop need not end; [fuel] bounds the number of
    iterations and [None] says it did not suffice. *)
Fixpoint pageout_scan (fuel : nat) (w : world) (addr end_ : Z)
    (page_list : list Z) : option (world * list Z) :=
  if addr <? end_ then
    match fuel with
    | O => None
    | S fuel' =>
        let '(w, page_list) := pageout_scan_body w addr page_list in
        pageout_scan fuel' w (ulong (addr + PAGE_SIZE)) end_ page_list
    end
  else Some (w, page_list).

(** How many pages of the list the reclaim subsystem frees. *)
Definition reclaimed_count (m : gmap Z page) (page_list : list Z) : Z :=
  Z.of_nat (length (List.filter (fun pfn =>
     match m !! pfn with Some p => page_reclaimable p | None => false end)
     page_list)).

(** [reclaim_pages] (mm/vmscan.c): frees what it can of the list and
    returns how many pages that was.  Only the call and the count are
    modelled; what becomes of the pages is of no concern to this file. *)
Definition reclaim_pages (w : world) (page_list : list Z) : world * Z :=
  let w := log w (EvReclaim page_list) in
  (w, reclaimed_count (mm w) page_list).

(** [damon_pa_apply_scheme]; the target and the context are not used. *)
Definition damon_pa_apply_scheme (fuel : nat) (w : world) (r : damon_region)
    (scheme : damos) : option (world * Z) :=
  if negb (bool_decide (action scheme = DAMOS_PAGEOUT)) then Some (w, 0)
  else
    match pageout_scan fuel w (ar_start r) (ar_end r) [] with
    | None => None
    | Some (w, page_list) =>
        let '(w, applied) := reclaim_pages w page_list in
        let w := log w EvCondResched in
        Some (w, ulong (applied * PAGE_SIZE))
    end.

(** [damon_pa_target_valid]. *)
Definition damon_pa_target_valid : bool := true.

(** ** Notions the properties are stated with *)

(** Claiming a slot for a frame and writing it, as the engine does after
    each oracle call. *)
Definition cache_claim_fill (w : world) (x : Z * Z * bool) : world :=
  let '(pfn, page_sz, accessed) := x in
  cache_fill w (damon_pa_cache_get_slot w pfn) pfn page_sz accessed.

(** No slot of the table is live and holds frame [F]. *)
Definition no_live_entry (w : world) (F : Z) : Prop :=
  Forall (fun e => ent_gen e = damon_pa_cache_gen w -> ent_pfn e <> F)
         (damon_pa_cache w).

(** No slot carries the generation the next round will use. *)
Definition fresh (w : world) : Prop :=
  Forall (fun e =>
            ent_gen e <> damon_pa_cache_gen (damon_pa_cache_round_begin w))
         (damon_pa_cache w).

(** The slots, anywhere in the table, that are live and hold frame [F]. *)
Definition live_slots_of (w : world) (F : Z) : list nat :=
  List.filter (fun s => let e := damon_pa_cache w !!! s in
                        live w e && (ent_pfn e =? F))
              (seq 0 (length (damon_pa_cache w))).

(** The states the cache can be in: the boot state, and whatever the
    operations of the engine, in any order, and the rest of the kernel
    acting on the page subsystem make of it. *)
Inductive reachable : world -> Prop :=
| reach_boot m rnd : reachable (boot m rnd)
| reach_round_begin w :
    reachable w -> reachable (damon_pa_cache_round_begin w)
| reach_prepare w r :
    reachable w -> reachable (fst (__damon_pa_prepare_access_check w r))
| reach_check w r :
    reachable w -> reachable (fst (__damon_pa_check_access w r))
| reach_mm w m :
    reachable w -> reachable (set_mm w m).

(** How often the trace calls the mark-cold operation on frame [F], and how
    often the hot test. *)
Definition mkold_calls (F : Z) (t : list event) : nat :=
  length (List.filter (fun ev => match ev with
                                 | EvMkold a => PHYS_PFN a =? F
                                 | _ => false
                                 end) t).

Definition young_calls (F : Z) (t : list event) : nat :=
  length (List.filter (fun ev => match ev with
                                 | EvYoung a => PHYS_PFN a =? F
                                 | _ => false
                                 end) t).

(** The value of the local [accessed] of [__damon_pa_check_access] when it
    updates the counter of [r]: the cached flag on the fast path, the answer
    of the hot test otherwise. *)
Definition found_accessed (w : world) (r : damon_region) : bool :=
  let pfn := PHYS_PFN (sampling_addr r) in
  match damon_pa_cache_lookup w pfn with
  | Some e =>
      if negb (ent_page_sz (damon_pa_cache w !!! e) =? 0)
      then ent_accessed (damon_pa_cache w !!! e)
      else fst (damon_pa_young_mm (mm w) pfn PAGE_SIZE)
  | None => fst (damon_pa_young_mm (mm w) pfn PAGE_SIZE)
  end.

(** [found_accessed] of each region of a list, each in the state in which
    the loop visits it. *)
Fixpoint found_flags (w : world) (rs : list damon_region) : list bool :=
  match rs with
  | [] => []
  | r :: rs' =>
      found_accessed w r :: found_flags (fst (__damon_pa_check_access w r)) rs'
  end.

(** The largest counter of a list of regions, 0 for none. *)
Definition max_nr_accesses_of (rs : list damon_region) : Z :=
  fold_right Z.max 0 (map nr_accesses rs).

(** *** Running without the cache

    Wiping the table ([memset] to zero) makes every slot stale once a round
    has begun.  A schedule says before which region visits the table is
    wiped: its head is for the next visit. *)
Definition damon_pa_cache_invalidate (w : world) : world :=
  set_cache w (replicate (Z.to_nat DAMON_PA_CACHE_SIZE) zero_ent).

Definition invalidate_if (b : bool) (w : world) : world :=
  if b then damon_pa_cache_invalidate w else w.

Definition prepare_body_inv (s : world * list bool) (r : damon_region)
  : (world * list bool) * damon_region :=
  let '(w, sched) := s in
  let '(w, r) :=
    __damon_pa_prepare_access_check (invalidate_if (hd false sched) w) r in
  ((w, tl sched), r).

Definition prepare_access_checks_inv (sched : list bool) (w : world)
    (ctx : damon_ctx) : world * damon_ctx :=
  let w := damon_pa_cache_round_begin w in
  let '((w, _), ctx) := for_each (for_each prepare_body_inv) (w, sched) ctx in
  (w, ctx).

Definition check_body_inv (s : world * Z * list bool) (r : damon_region)
  : (world * Z * list bool) * damon_region :=
  let '(w, max_nr_accesses, sched) := s in
  let '((w, max_nr_accesses), r) :=
    check_accesses_body (invalidate_if (hd false sched) w, max_nr_accesses) r in
  ((w, max_nr_accesses, tl sched), r).

Definition check_accesses_inv (sched : list bool) (w : world) (ctx : damon_ctx)
  : world * damon_ctx * Z :=
  let '((w, max_nr_accesses, _), ctx) :=
    for_each (for_each check_body_inv) (w, 0, sched) ctx in
  (w, ctx, max_nr_accesses).

(** The hot test answers alike for a frame it reports as part of a huge
    mapping and for the base frame of that mapping. *)
Definition huge_consistent (m : gmap Z page) : Prop :=
  forall F a S,
    damon_pa_young_mm m F PAGE_SIZE = (a, S) ->
    PAGE_SIZE < S ->
    fst (damon_pa_young_mm m (huge_base_pfn F S) PAGE_SIZE) = a.

(** *** Yielding during the reclaim scan *)

(** The longest run of frame lookups of a trace with no [cond_resched]
    inside it; [cur] is the length of the run in progress. *)
Fixpoint unyielded_run (cur : nat) (t : list event) : nat :=
  match t with
  | [] => cur
  | EvGetPage _ :: t' => unyielded_run (S cur) t'
  | EvCondResched :: t' => Nat.max cur (unyielded_run 0 t')
  | _ :: t' => unyielded_run cur t'
  end.

(** ** Inputs used in the examples *)

(** The region that is exactly frame [f]; whatever the draw, its sample
    lies in that frame. *)
Definition one_page (f : Z) : damon_region :=
  {| ar_start := f * PAGE_SIZE; ar_end := f * PAGE_SIZE + PAGE_SIZE;
     sampling_addr := 0; nr_accesses := 0 |}.

Definition no_draws : nat -> Z := fun _ => 0.

(** An anonymous page with one mapping; [pte] says whether it is mapped by
    a PTE or by a PMD, [y] whether the mapping is young, [idle] the idle
    flag. *)
Definition anon_page (pte y idle : bool) : page :=
  {| page_mapped := true; page_rmapping := true; page_is_idle := idle;
     page_is_young := false; PageReferenced := false; PageAnon := true;
     PageKsm := false; page_trylock := true; isolate_busy := false;
     PageUnevictable := false; page_reclaimable := true;
     page_rmap := [[{| hit_pte := pte; hit_young := y;
                       hit_notifier_young := false |}]] |}.

(** A page-cache page that no process maps. *)
Definition unmapped_page (idle : bool) : page :=
  {| page_mapped := false; page_rmapping := true; page_is_idle := idle;
     page_is_young := false; PageReferenced := false; PageAnon := false;
     PageKsm := false; page_trylock := true; isolate_busy := false;
     PageUnevictable := false; page_reclaimable := true;
     page_rmap := [] |}.

(** The state after the first round since boot has prepared the region that
    is frame 1, and the state [2^64 - 2] round starts later. *)
Definition w_round1 : world :=
  fst (damon_pa_prepare_access_checks (boot ∅ no_draws) [[one_page 1]]).

Definition w_before_wrap : world :=
  N.iter (2 ^ 64 - 2) damon_pa_cache_round_begin w_round1.

(** The test of the prepare phase: a live entry for the frame is found and
    has [mkold_done] set. *)
Definition dedup_hit (w : world) (pfn : Z) : bool :=
  match damon_pa_cache_lookup w pfn with
  | Some e => ent_mkold_done (damon_pa_cache w !!! e)
  | None => false
  end.

(** The test of the check phase: a live entry for the frame is found and
    has a non-zero [page_sz]; the result is its [accessed] flag. *)
Definition resolved_hit (w : world) (pfn : Z) : option bool :=
  match damon_pa_cache_lookup w pfn with
  | Some e =>
      if negb (ent_page_sz (damon_pa_cache w !!! e) =? 0)
      then Some (ent_accessed (damon_pa_cache w !!! e))
      else None
  | None => None
  end.

(** The region with its sample drawn, and the world after the draw. *)
Definition draw_sample (w : world) (r : damon_region) : world * damon_region :=
  let '(w, a) := damon_rand w (ar_start r) (ar_end r) in
  (w, set_sampling_addr r a).

(** Every slot written since boot has [mkold_done] set. *)
Definition marked (w : world) : Prop :=
  Forall (fun e => ent_gen e <> 0 -> ent_mkold_done e = true)
         (damon_pa_cache w).

Definition cache_sized (w : world) : Prop :=
  length (damon_pa_cache w) = Z.to_nat DAMON_PA_CACHE_SIZE.

(** A page subsystem in which frame 1 is an anonymous page with a young
    PTE mapping. *)
Definition mm_frame1 : gmap Z page := {[ 1 := anon_page true true false ]}.

(** Six regions; the frames of the first five hash to the same bucket, the
    sixth is the frame of the first again. *)
Definition ctx_evict : damon_ctx :=
  [[one_page 1; one_page 234; one_page 611; one_page 844; one_page 988;
    one_page 1]].

(** The first round after boot has begun; frame 1 is mapped and young. *)
Definition w_begun : world :=
  damon_pa_cache_round_begin (boot mm_frame1 no_draws).

(** A page subsystem in which frame 1 is a page no process maps and whose
    idle flag is clear (it was read since it was last marked idle). *)
Definition mm_unmapped_touched : gmap Z page := {[ 1 := unmapped_page false ]}.

(** The check phase of the first round is about to run on the region that
    is frame 1; the page of the frame is unmapped and not idle. *)
Definition w_unmapped_touched : world :=
  set_mm (fst (damon_pa_prepare_access_checks
                 (boot {[ 1 := unmapped_page true ]} no_draws) [[one_page 1]]))
         mm_unmapped_touched.

Definition ctx_frame1 : damon_ctx :=
  snd (damon_pa_prepare_access_checks
         (boot {[ 1 := unmapped_page true ]} no_draws) [[one_page 1]]).

(** Two anonymous pages that can be reclaimed, at frames 1 and 2, and the
    region made of these two frames. *)
Definition mm_two_pages : gmap Z page :=
  {[ 1 := anon_page true false true; 2 := anon_page true false true ]}.

Definition two_pages : damon_region :=
  {| ar_start := 4096; ar_end := 12288; sampling_addr := 0; nr_accesses := 0 |}.

Definition pageout_scheme : damos := {| action := DAMOS_PAGEOUT |}.

(** The region of the first [n] frames. *)
Definition first_frames (n : nat) : damon_region :=
  {| ar_start := 0; ar_end := Z.of_nat n * PAGE_SIZE; sampling_addr := 0;
     nr_accesses := 0 |}.

(** The fuel that lets the scan of [r] end. *)
Definition scan_fuel (r : damon_region) : nat :=
  Z.to_nat ((ar_end r - ar_start r) / PAGE_SIZE + 1).

(** Frames 512 and 513 of one huge unit, mapped by a young PMD, and a
    context of three regions: frame 513, frame 512, frame 513 again. *)
Definition mm_unit : gmap Z page :=
  {[ 512 := anon_page false true false; 513 := anon_page false true false ]}.

Definition ctx_unit : damon_ctx :=
  [[one_page 513; one_page 512]; [one_page 513]].

(** Frames 513 and 514 lie in the 2 MiB unit whose base frame is 512; both
    are mapped by a PMD that is young. *)
Definition mm_huge : gmap Z page :=
  {[ 513 := anon_page false true false; 514 := anon_page false true false ]}.

Definition ctx_huge : damon_ctx := [[one_page 513; one_page 514]].

(** One round on [ctx_huge]: the prepare phase, then the workload touches
    the huge page again, then the check phase. *)
Definition w_huge_prepared : world :=
  set_mm (fst (damon_pa_prepare_access_checks (boot mm_huge no_draws) ctx_huge))
         mm_huge.

Definition w_huge_checked : world :=
  fst (fst (damon_pa_check_accesses
              w_huge_prepared
              (snd (damon_pa_prepare_access_checks (boot mm_huge no_draws)
                                                   ctx_huge)))).

(** One round on two regions of the unit of [mm_unit]: frame 513, then
    the base frame 512 itself. *)
Definition w_unit_prepared : world :=
  set_mm (fst (damon_pa_prepare_access_checks (boot mm_unit no_draws)
                 [[one_page 513; one_page 512]]))
         mm_unit.

Definition w_unit_checked : world :=
  fst (fst (damon_pa_check_accesses
              w_unit_prepared
              (snd (damon_pa_prepare_access_checks (boot mm_unit no_draws)
                      [[one_page 513; one_page 512]])))).

(** One round on the region that is frame 1, and one round on two regions
    that both are frame 1. *)
Definition w_frame1_checked : world :=
  let '(w, ctx) :=
    damon_pa_prepare_access_checks (boot mm_frame1 no_draws) [[one_page 1]] in
  fst (fst (damon_pa_check_accesses w ctx)).

Definition w_frame1_twice_checked : world :=
  let '(w, ctx) :=
    damon_pa_prepare_access_checks (boot mm_frame1 no_draws)
                                   [[one_page 1; one_page 1]] in
  fst (fst (damon_pa_check_accesses w ctx)).

(** *** What the transparency of the cache rests on *)

(** The page after [damon_mkold_hit] ran on each of [hits]. *)
Definition after_hits (p : page) (hits : list pvmw_hit) : page :=
  {| page_mapped := page_mapped p; page_rmapping := page_rmapping p;
     page_is_idle := page_is_idle p || match hits with [] => false | _ => true end;
     page_is_young := page_is_young p || existsb hit_referenced hits;
     PageReferenced := PageReferenced p; PageAnon := PageAnon p;
     PageKsm := PageKsm p; page_trylock := page_trylock p;
     isolate_busy := isolate_busy p; PageUnevictable := PageUnevictable p;
     page_reclaimable := page_reclaimable p; page_rmap := page_rmap p |}.

(** In the prepare phase every live entry is unresolved, and its frame is
    cold already: marking it cold again changes nothing. *)
Definition prep_inv (w : world) : Prop :=
  damon_pa_cache_gen w <> 0 /\
  Forall (fun e => ent_gen e = damon_pa_cache_gen w ->
                   ent_page_sz e = 0 /\
                   damon_pa_mkold_mm (mm w) (ent_pfn e) = mm w)
         (damon_pa_cache w).

(** In the check phase every live resolved entry holds what the hot test
    answers for its frame. *)
Definition check_inv (w : world) : Prop :=
  damon_pa_cache_gen w <> 0 /\
  Forall (fun e => ent_gen e = damon_pa_cache_gen w -> ent_page_sz e <> 0 ->
                   ent_accessed e
                   = fst (damon_pa_young_mm (mm w) (ent_pfn e) PAGE_SIZE))
         (damon_pa_cache w).

(** Two worlds that differ at most in the table and in the trace. *)
Definition same_but_cache (w w' : world) : Prop :=
  damon_pa_cache_gen w' = damon_pa_cache_gen w /\ mm w' = mm w /\
  prandom w' = prandom w /\ prandom_pos w' = prandom_pos w.

(** The state before the round that wraps the generation, as
    [w_before_wrap], with frame 1 mapped and young. *)
Definition w_before_wrap_hot : world := set_mm w_before_wrap mm_frame1.

(** One round, prepare phase then check phase, with the table as it is;
    and the same round with the table wiped before the first visit. *)
Definition round_with_cache (w : world) (ctx : damon_ctx)
  : world * damon_ctx * Z :=
  let p := damon_pa_prepare_access_checks w ctx in
  damon_pa_check_accesses (fst p) (snd p).

Definition round_wiped_first (w : world) (ctx : damon_ctx)
  : world * damon_ctx * Z :=
  let p := prepare_access_checks_inv [true] w ctx in
  check_accesses_inv [] (fst p) (snd p).

(** ** Notions for the further properties *)

(** A slot of the table is live. *)
Definition slot_live (w : world) (s : nat) : bool :=
  live w (damon_pa_cache w !!! s).

(** Every stamp of the table lies between 0 and the current generation. *)
Definition stamps_ordered (w : world) : Prop :=
  0 <= damon_pa_cache_gen w /\
  Forall (fun e => 0 <= ent_gen e <= damon_pa_cache_gen w) (damon_pa_cache w).

(** A mapping through which the hot test sees an access to page [p]. *)
Definition hit_hot (p : page) (h : pvmw_hit) : bool :=
  hit_young h || negb (page_is_idle p) || hit_notifier_young h.

(** What the hot test answers for a page, in closed form: for a page
    without mappings the idle flag decides; a page whose lock is contended
    counts as not accessed; otherwise the page is accessed when one of its
    mappings shows an access. *)
Definition young_page_spec (p : page) : bool :=
  if negb (page_mapped p) || negb (page_rmapping p) then negb (page_is_idle p)
  else if (negb (PageAnon p) || PageKsm p) && negb (page_trylock p) then false
  else existsb (hit_hot p) (concat (page_rmap p)).

Definition young_spec (m : gmap Z page) (pfn : Z) : bool :=
  match m !! pfn with
  | None => false
  | Some p => young_page_spec p
  end.

(** The frame is cold: the hot test finds no access. *)
Definition cold (m : gmap Z page) (F : Z) : Prop :=
  fst (damon_pa_young_mm m F PAGE_SIZE) = false.

(** Since the trace was [t0], the mark-cold operation has been called on
    the frame of every live entry. *)
Definition marked_since (t0 : list event) (w : world) : Prop :=
  damon_pa_cache_gen w <> 0 /\
  (forall G, (mkold_calls G t0 <= mkold_calls G (trace w))%nat) /\
  Forall (fun e => ent_gen e = damon_pa_cache_gen w ->
                   (mkold_calls (ent_pfn e) t0
                    < mkold_calls (ent_pfn e) (trace w))%nat)
         (damon_pa_cache w).

(** Every live resolved entry says "not accessed". *)
Definition resolved_cold (w : world) : Prop :=
  damon_pa_cache_gen w <> 0 /\
  Forall (fun e => ent_gen e = damon_pa_cache_gen w -> ent_page_sz e <> 0 ->
                   ent_accessed e = false)
         (damon_pa_cache w).

(** The probe window of [pfn] is full: each of its slots holds a live
    entry, so a claim for [pfn] overwrites the first of them. *)
Definition window_full (w : world) (pfn : Z) : bool :=
  forallb (slot_live w) (probe_window pfn).

(** The visit of region [r] in state [w] misses and claims a slot of a full
    probe window. *)
Definition claims_in_full_window (w : world) (r : damon_region) : bool :=
  let d := draw_sample w r in
  let pfn := PHYS_PFN (sampling_addr (snd d)) in
  negb (dedup_hit (fst d) pfn) && window_full (fst d) pfn.

(** None of the visits of the prepare phase on the regions [rs], made one
    after the other from state [w], claims a slot of a full probe window. *)
Fixpoint no_full_window_claim (w : world) (rs : list damon_region) : bool :=
  match rs with
  | [] => true
  | r :: rs' =>
      negb (claims_in_full_window w r)
      && no_full_window_claim (fst (__damon_pa_prepare_access_check w r)) rs'
  end.

(** Frame 1 mapped by a page table entry, not accessed, idle. *)
Definition mm_frame1_cold : gmap Z page :=
  {[ 1 := anon_page true false true ]}.

(** The first round after boot on two regions that sample frame 1, frame 1
    being accessed again between the two visits of the prepare phase; with
    [wipe] the table is wiped at that point. *)
Definition round_touched_in_prepare (wipe : bool) : world * damon_ctx * Z :=
  let w0 := damon_pa_cache_round_begin (boot mm_frame1 no_draws) in
  let a := __damon_pa_prepare_access_check w0 (one_page 1) in
  let b := __damon_pa_prepare_access_check
             (invalidate_if wipe (set_mm (fst a) mm_frame1)) (one_page 1) in
  damon_pa_check_accesses (fst b) [[snd a; snd b]].

(** Two regions on frame 1 and three on frames of its bucket: after the
    prepare phase the probe window of frame 1 is full. *)
Definition ctx_full : damon_ctx :=
  [[one_page 1; one_page 1; one_page 234; one_page 611; one_page 844]].

(** The first round after boot on [ctx_full], frame 1 being accessed
    between the phases and found not accessed any more between the first
    and the second visit of the check phase; with [wipe] the table is wiped
    at that point. *)
Definition round_touched_in_check (wipe : bool)
    : world * list damon_region * Z :=
  let p := damon_pa_prepare_access_checks (boot mm_frame1 no_draws) ctx_full in
  let rs := concat (snd p) in
  let c1 := for_each check_accesses_body
              (set_mm (fst p) mm_frame1, 0) (take 1 rs) in
  let c2 := for_each check_accesses_body
              (invalidate_if wipe (set_mm (fst (fst c1)) mm_frame1_cold),
               snd (fst c1))
              (drop 1 rs) in
  (fst (fst c2), snd c1 ++ snd c2, snd (fst c2)).

(** Frames 512 and 513 of one huge unit for which the hot test does not
    answer alike: frame 513 is mapped huge and accessed, frame 512 is
    mapped by a page table entry, not accessed, idle. *)
Definition mm_split_unit : gmap Z page :=
  {[ 512 := anon_page true false true; 513 := anon_page false true false ]}.

Definition ctx_split_unit : damon_ctx := [[one_page 513; one_page 512]].

(** The state in which the check phase of the first round after boot on
    [ctx_split_unit] starts, the page subsystem being [mm_split_unit]
    then. *)
Definition split_unit_prepared : world * damon_ctx :=
  let p := damon_pa_prepare_access_checks (boot mm_split_unit no_draws)
                                          ctx_split_unit in
  (set_mm (fst p) mm_split_unit, snd p).

(** * Properties *)

(** ** The cache primitives *)

Lemma slot_lt idx i : (slot idx i < Z.to_nat DAMON_PA_CACHE_SIZE)%nat.
Proof.
  unfold slot. change (DAMON_PA_CACHE_SIZE - 1) with (Z.ones 8).
  rewrite Z.land_ones by lia. change DAMON_PA_CACHE_SIZE with 256.
  pose proof (Z.mod_pos_bound (idx + i) (2 ^ 8)). lia.
Qed.

Lemma probe_window_lt pfn s :
  In s (probe_window pfn) -> (s < Z.to_nat DAMON_PA_CACHE_SIZE)%nat.
Proof.
  unfold probe_window. rewrite in_map_iff. intros (i & <- & _).
  apply slot_lt.
Qed.

Lemma probe_window_unfold pfn :
  probe_window pfn =
  let idx := hash_long pfn DAMON_PA_CACHE_BITS in
  [slot idx 0; slot idx 1; slot idx 2; slot idx 3].
Proof. reflexivity. Qed.

Lemma get_slot_in_window w pfn :
  In (damon_pa_cache_get_slot w pfn) (probe_window pfn).
Proof.
  unfold damon_pa_cache_get_slot.
  destruct (find _ _) as [s|] eqn:Hf.
  - apply find_some in Hf. tauto.
  - rewrite probe_window_unfold. left. unfold slot. by rewrite Z.add_0_r.
Qed.

Lemma get_slot_lt w pfn :
  (damon_pa_cache_get_slot w pfn < Z.to_nat DAMON_PA_CACHE_SIZE)%nat.
Proof. eapply probe_window_lt, get_slot_in_window. Qed.

(** A slot read as live in a round that has begun is a slot of the table. *)
Lemma live_slot_lookup (c : list damon_pa_cache_ent) s g :
  g <> 0 -> ent_gen (c !!! s) = g -> c !! s = Some (c !!! s).
Proof.
  rewrite list_lookup_total_alt. destruct (c !! s); simpl; [done|].
  intros Hg Hz. by rewrite Hz in Hg.
Qed.

Lemma lookup_Some w F s :
  damon_pa_cache_lookup w F = Some s ->
  In s (probe_window F) /\
  ent_gen (damon_pa_cache w !!! s) = damon_pa_cache_gen w /\
  ent_pfn (damon_pa_cache w !!! s) = F.
Proof.
  unfold damon_pa_cache_lookup, live. intros H.
  apply find_some in H as [Hin H]. simpl in H.
  apply andb_true_iff in H as [H1 H2]. split; [done|]. split; lia.
Qed.

Lemma lookup_None w F :
  damon_pa_cache_lookup w F = None <->
  forall s, In s (probe_window F) ->
    ~ (ent_gen (damon_pa_cache w !!! s) = damon_pa_cache_gen w /\
       ent_pfn (damon_pa_cache w !!! s) = F).
Proof.
  unfold damon_pa_cache_lookup, live. split.
  - intros H s Hs [H1 H2]. apply (find_none _ _ H) in Hs. simpl in Hs.
    apply andb_false_iff in Hs as [Hs|Hs]; lia.
  - intros H. destruct (find _ _) as [s|] eqn:Hf; [|done].
    apply find_some in Hf as [Hin Hf]. simpl in Hf.
    apply andb_true_iff in Hf as [H1 H2]. destruct (H s Hin). split; lia.
Qed.

Lemma no_live_entry_lookup w F :
  damon_pa_cache_gen w <> 0 -> no_live_entry w F ->
  damon_pa_cache_lookup w F = None.
Proof.
  intros Hg Hno. apply lookup_None. intros s _ [H1 H2].
  apply live_slot_lookup in H1 as Hs; [|done].
  unfold no_live_entry in Hno. rewrite Forall_lookup in Hno.
  by apply (Hno _ _ Hs).
Qed.

Lemma no_live_entry_fill w F e G sz a :
  G <> F -> no_live_entry w F -> no_live_entry (cache_fill w e G sz a) F.
Proof.
  intros HG Hno. unfold no_live_entry, cache_fill; simpl.
  apply Forall_insert; [done|]. by simpl.
Qed.

Lemma round_begin_gen_nonzero w :
  damon_pa_cache_gen (damon_pa_cache_round_begin w) <> 0.
Proof.
  unfold damon_pa_cache_round_begin; simpl.
  destruct (ulong (damon_pa_cache_gen w + 1) =? 0) eqn:E; lia.
Qed.

Lemma fresh_no_live_entry w F :
  fresh w -> no_live_entry (damon_pa_cache_round_begin w) F.
Proof.
  unfold fresh, no_live_entry. intros H. eapply Forall_impl; [exact H|].
  intros e He Hg. by destruct He.
Qed.

Lemma claim_fill_gen w x :
  damon_pa_cache_gen (cache_claim_fill w x) = damon_pa_cache_gen w.
Proof. by destruct x as [[? ?] ?]. Qed.

Lemma no_live_entry_claims F ws : forall w,
  Forall (fun x : Z * Z * bool => x.1.1 <> F) ws ->
  no_live_entry w F ->
  no_live_entry (fold_left cache_claim_fill ws w) F.
Proof.
  induction ws as [|[[G sz] a] ws IH]; intros w Hws Hno; simpl; [done|].
  inversion Hws; subst. apply IH; [done|].
  by apply no_live_entry_fill.
Qed.

Lemma claims_gen ws : forall w,
  damon_pa_cache_gen (fold_left cache_claim_fill ws w) = damon_pa_cache_gen w.
Proof.
  induction ws as [|x ws IH]; intros w; simpl; [done|].
  by rewrite IH, claim_fill_gen.
Qed.

(** C6, as amended.  When no slot carries the generation that the round
    being started uses, then after [damon_pa_cache_round_begin] the
    generation is not 0, the lookup of every frame [F] finds nothing, and it
    goes on finding nothing however many slots are claimed and written for
    frames other than [F]. *)
Theorem round_begin_clears_until_claimed (w : world) :
  fresh w ->
  damon_pa_cache_gen (damon_pa_cache_round_begin w) <> 0 /\
  forall F : Z,
    damon_pa_cache_lookup (damon_pa_cache_round_begin w) F = None /\
    forall ws : list (Z * Z * bool),
      Forall (fun x => x.1.1 <> F) ws ->
      damon_pa_cache_lookup
        (fold_left cache_claim_fill ws (damon_pa_cache_round_begin w)) F
      = None.
Proof.
  intros Hf. pose proof (round_begin_gen_nonzero w) as Hg.
  split; [done|]. intros F. split.
  - apply no_live_entry_lookup; [done|]. by apply fresh_no_live_entry.
  - intros ws Hws. apply no_live_entry_lookup.
    + by rewrite claims_gen.
    + apply no_live_entry_claims; [done|]. by apply fresh_no_live_entry.
Qed.

(** Witness of [round_begin_clears_until_claimed]: the second round after
    boot finds nothing for frame 1, which the first round had cached. *)
Lemma round_begin_clears_witness :
  damon_pa_cache_lookup (damon_pa_cache_round_begin w_round1) 1 = None.
Proof.
  assert (fresh w_round1) as Hf.
  { unfold fresh. apply (bool_decide_unpack _). vm_compute. exact I. }
  exact (proj1 (proj2 (round_begin_clears_until_claimed w_round1 Hf) 1)).
Defined.

(** ** Reachable states *)

Lemma for_each_fst_ind {S A : Type} (P : S -> Prop) (body : S -> A -> S * A) :
  (forall s x, P s -> P (fst (body s x))) ->
  forall l s, P s -> P (fst (for_each body s l)).
Proof.
  intros Hb. induction l as [|x l IH]; intros s Hs; simpl; [done|].
  specialize (Hb s x Hs). destruct (body s x) as [s1 x'].
  specialize (IH s1 Hb). destruct (for_each body s1 l) as [s2 l']. done.
Qed.

Lemma reachable_prepare_access_checks w ctx :
  reachable w -> reachable (fst (damon_pa_prepare_access_checks w ctx)).
Proof.
  intros Hw. unfold damon_pa_prepare_access_checks.
  apply (for_each_fst_ind reachable); [|by apply reach_round_begin].
  intros s t Hs. apply (for_each_fst_ind reachable); [|done].
  intros s' r Hs'. by apply reach_prepare.
Qed.

Lemma reachable_check_accesses_body (s : world * Z) r :
  reachable (fst s) -> reachable (fst (fst (check_accesses_body s r))).
Proof.
  destruct s as [w mx]. simpl. intros Hw. unfold check_accesses_body.
  pose proof (reach_check w r Hw) as Hr.
  by destruct (__damon_pa_check_access w r).
Qed.

Lemma reachable_check_accesses w ctx :
  reachable w -> reachable (fst (fst (damon_pa_check_accesses w ctx))).
Proof.
  intros Hw. unfold damon_pa_check_accesses.
  assert (reachable (fst (fst (for_each (for_each check_accesses_body)
                                        (w, 0) ctx)))) as H.
  { apply (for_each_fst_ind (fun s : world * Z => reachable (fst s)));
      [|done].
    intros s t Hs.
    apply (for_each_fst_ind (fun s : world * Z => reachable (fst s)));
      [|done].
    intros s' r Hs'. by apply reachable_check_accesses_body. }
  by destruct (for_each _ _ _) as [[w' mx] ctx'].
Qed.

Lemma reachable_iter_round_begin n w :
  reachable w -> reachable (N.iter n damon_pa_cache_round_begin w).
Proof.
  intros Hw. induction n using N.peano_ind; [done|].
  rewrite N.iter_succ. by apply reach_round_begin.
Qed.

Lemma iter_round_begin n : forall w,
  0 <= damon_pa_cache_gen w ->
  damon_pa_cache_gen w + Z.of_N n < 2 ^ 64 ->
  N.iter n damon_pa_cache_round_begin w
  = set_gen w (damon_pa_cache_gen w + Z.of_N n).
Proof.
  induction n using N.peano_ind; intros w H0 Hn.
  - destruct w; unfold set_gen; simpl. f_equal. lia.
  - rewrite N.iter_succ, IHn by lia.
    unfold damon_pa_cache_round_begin, set_gen, ulong; simpl.
    change (2 ^ BITS_PER_LONG) with (2 ^ 64).
    rewrite Z.mod_small by lia.
    destruct (_ =? 0) eqn:E; [lia|]. f_equal. lia.
Qed.

(** C6, counterexample.  The state [w_before_wrap] is reached from boot by
    one prepared round followed by round starts; its generation is
    [ULONG_MAX].  The next round start wraps the generation to 1, the stamp
    of the slot the first round wrote for frame 1, and the lookup of frame 1
    finds that slot although nothing was claimed in the new round. *)
Lemma round_begin_wrap_revives_entry :
  reachable w_before_wrap /\
  damon_pa_cache_gen w_before_wrap = ULONG_MAX /\
  damon_pa_cache_lookup (damon_pa_cache_round_begin w_before_wrap) 1
  = Some 97%nat.
Proof.
  split; [|split].
  - apply reachable_iter_round_begin, reachable_prepare_access_checks.
    apply reach_boot.
  - unfold w_before_wrap. rewrite iter_round_begin by (vm_compute; done).
    vm_compute. reflexivity.
  - unfold w_before_wrap. rewrite iter_round_begin by (vm_compute; done).
    vm_compute. reflexivity.
Qed.

(** ** The two visits, by cases *)

Arguments cache_claim_fill : simpl never.

Lemma prepare_cases w r :
  __damon_pa_prepare_access_check w r =
  let '(w1, r1) := draw_sample w r in
  let pfn := PHYS_PFN (sampling_addr r1) in
  if dedup_hit w1 pfn then (w1, r1)
  else (cache_claim_fill (damon_pa_mkold w1 (sampling_addr r1)) (pfn, 0, false),
        r1).
Proof.
  unfold __damon_pa_prepare_access_check, draw_sample, dedup_hit, damon_rand.
  simpl. destruct (damon_pa_cache_lookup _ _) as [e|]; [|done].
  by destruct (ent_mkold_done _).
Qed.

Lemma check_cases w r :
  __damon_pa_check_access w r =
  match resolved_hit w (PHYS_PFN (sampling_addr r)) with
  | Some accessed => (w, if accessed then inc_nr_accesses r else r)
  | None => check_access_slow w r
  end.
Proof.
  unfold __damon_pa_check_access, resolved_hit.
  destruct (damon_pa_cache_lookup _ _) as [e|]; [|done].
  by destruct (negb _).
Qed.

Lemma check_access_slow_world w r :
  fst (check_access_slow w r) =
  let pfn := PHYS_PFN (sampling_addr r) in
  let '(accessed, page_sz) := damon_pa_young_mm (mm w) pfn PAGE_SIZE in
  let w := log w (EvYoung (sampling_addr r)) in
  let w := cache_claim_fill w (pfn, page_sz, accessed) in
  if PAGE_SIZE <? page_sz
  then cache_claim_fill w (huge_base_pfn pfn page_sz, page_sz, accessed)
  else w.
Proof.
  unfold check_access_slow, damon_pa_young. simpl.
  destruct (damon_pa_young_mm _ _ _) as [a sz]. by destruct (_ <? _).
Qed.

Lemma check_access_slow_region w r :
  snd (check_access_slow w r) =
  if fst (damon_pa_young_mm (mm w) (PHYS_PFN (sampling_addr r)) PAGE_SIZE)
  then inc_nr_accesses r else r.
Proof.
  unfold check_access_slow, damon_pa_young. simpl.
  by destruct (damon_pa_young_mm _ _ _) as [a sz].
Qed.

Lemma check_region w r :
  snd (__damon_pa_check_access w r) =
  if found_accessed w r then inc_nr_accesses r else r.
Proof.
  rewrite check_cases. unfold found_accessed, resolved_hit.
  destruct (damon_pa_cache_lookup _ _) as [e|];
    [destruct (negb _)|]; simpl; by rewrite ?check_access_slow_region.
Qed.

(** ** Invariants of the reachable states *)

Lemma cache_sized_fill w e pfn sz a :
  cache_sized w -> cache_sized (cache_fill w e pfn sz a).
Proof. unfold cache_sized, cache_fill; simpl. by rewrite length_insert. Qed.

Lemma cache_sized_claim_fill w x :
  cache_sized w -> cache_sized (cache_claim_fill w x).
Proof. destruct x as [[? ?] ?]. apply cache_sized_fill. Qed.

Lemma marked_fill w e pfn sz a :
  marked w -> marked (cache_fill w e pfn sz a).
Proof. unfold marked, cache_fill; simpl. intros. by apply Forall_insert. Qed.

Lemma marked_claim_fill w x : marked w -> marked (cache_claim_fill w x).
Proof. destruct x as [[? ?] ?]. apply marked_fill. Qed.

Lemma prepare_preserves (P : world -> Prop) :
  (forall w w', damon_pa_cache w' = damon_pa_cache w ->
                damon_pa_cache_gen w' = damon_pa_cache_gen w -> P w -> P w') ->
  (forall w x, P w -> P (cache_claim_fill w x)) ->
  forall w r, P w -> P (fst (__damon_pa_prepare_access_check w r)).
Proof.
  intros Hext Hfill w r Hw. rewrite prepare_cases.
  unfold draw_sample, damon_rand. simpl.
  destruct (dedup_hit _ _); simpl.
  - by apply (Hext w).
  - apply Hfill. by apply (Hext w).
Qed.

Lemma check_preserves (P : world -> Prop) :
  (forall w w', damon_pa_cache w' = damon_pa_cache w ->
                damon_pa_cache_gen w' = damon_pa_cache_gen w -> P w -> P w') ->
  (forall w x, P w -> P (cache_claim_fill w x)) ->
  forall w r, P w -> P (fst (__damon_pa_check_access w r)).
Proof.
  intros Hext Hfill w r Hw. rewrite check_cases.
  destruct (resolved_hit _ _); simpl; [done|].
  rewrite check_access_slow_world. simpl.
  destruct (damon_pa_young_mm _ _ _) as [a sz].
  assert (P (log w (EvYoung (sampling_addr r)))) by by apply (Hext w).
  destruct (_ <? _); auto.
Qed.

Lemma reachable_cache_sized w : reachable w -> cache_sized w.
Proof.
  induction 1 as [m rnd|w Hw IH|w r Hw IH|w r Hw IH|w m Hw IH].
  - unfold cache_sized, boot. cbn [damon_pa_cache]. apply length_replicate.
  - exact IH.
  - apply (prepare_preserves cache_sized); try done.
    + unfold cache_sized. by intros ?? -> _.
    + apply cache_sized_claim_fill.
  - apply (check_preserves cache_sized); try done.
    + unfold cache_sized. by intros ?? -> _.
    + apply cache_sized_claim_fill.
  - exact IH.
Qed.

Lemma reachable_marked w : reachable w -> marked w.
Proof.
  induction 1 as [m rnd|w Hw IH|w r Hw IH|w r Hw IH|w m Hw IH].
  - unfold marked, boot. cbn [damon_pa_cache]. by apply Forall_replicate.
  - exact IH.
  - apply (prepare_preserves marked); try done.
    + unfold marked. by intros ?? -> _.
    + apply marked_claim_fill.
  - apply (check_preserves marked); try done.
    + unfold marked. by intros ?? -> _.
    + apply marked_claim_fill.
  - exact IH.
Qed.

Lemma marked_lookup w F e :
  marked w -> damon_pa_cache_gen w <> 0 ->
  damon_pa_cache_lookup w F = Some e ->
  ent_mkold_done (damon_pa_cache w !!! e) = true.
Proof.
  intros Hm Hg Hl. apply lookup_Some in Hl as (_ & Hgen & _).
  pose proof (live_slot_lookup _ _ _ Hg Hgen) as Hs.
  unfold marked in Hm. rewrite Forall_lookup in Hm.
  apply (Hm _ _ Hs). by rewrite Hgen.
Qed.

Lemma lookup_ext w w' F :
  damon_pa_cache w' = damon_pa_cache w ->
  damon_pa_cache_gen w' = damon_pa_cache_gen w ->
  damon_pa_cache_lookup w' F = damon_pa_cache_lookup w F.
Proof.
  intros Hc Hg. unfold damon_pa_cache_lookup, live. by rewrite Hc, Hg.
Qed.

(** After a slot has been claimed and written for a frame, the lookup of
    the frame finds an entry. *)
Lemma lookup_claim_fill w F sz a :
  cache_sized w ->
  damon_pa_cache_lookup (cache_claim_fill w (F, sz, a)) F <> None.
Proof.
  intros Hlen Hnone. rewrite lookup_None in Hnone.
  apply (Hnone (damon_pa_cache_get_slot w F)); [apply get_slot_in_window|].
  unfold cache_claim_fill, cache_fill. simpl.
  rewrite list_lookup_total_insert_eq; [done|].
  rewrite Hlen. apply get_slot_lt.
Qed.

Lemma prepare_gen w r :
  damon_pa_cache_gen (fst (__damon_pa_prepare_access_check w r))
  = damon_pa_cache_gen w.
Proof.
  apply (prepare_preserves
           (fun w' => damon_pa_cache_gen w' = damon_pa_cache_gen w));
    [congruence| |done].
  intros ? [[? ?] ?]. done.
Qed.

Lemma check_gen w r :
  damon_pa_cache_gen (fst (__damon_pa_check_access w r))
  = damon_pa_cache_gen w.
Proof.
  apply (check_preserves
           (fun w' => damon_pa_cache_gen w' = damon_pa_cache_gen w));
    [congruence| |done].
  intros ? [[? ?] ?]. done.
Qed.

Lemma draw_sample_cache w r :
  damon_pa_cache (fst (draw_sample w r)) = damon_pa_cache w /\
  damon_pa_cache_gen (fst (draw_sample w r)) = damon_pa_cache_gen w /\
  mm (fst (draw_sample w r)) = mm w /\
  trace (fst (draw_sample w r)) = trace w.
Proof. done. Qed.

(** In a round, a visit of the prepare phase whose sample frame has a live
    entry stops after the draw. *)
Lemma prepare_skips_found w r :
  marked w -> damon_pa_cache_gen w <> 0 ->
  is_Some (damon_pa_cache_lookup w
             (PHYS_PFN (sampling_addr (snd (draw_sample w r))))) ->
  __damon_pa_prepare_access_check w r = draw_sample w r.
Proof.
  intros Hm Hg [e He]. rewrite prepare_cases.
  destruct (draw_sample_cache w r) as (Hc & Hgen & _).
  destruct (draw_sample w r) as [w1 r1]. simpl in *.
  unfold dedup_hit. rewrite (lookup_ext w w1) by done. rewrite He, Hc.
  by rewrite (marked_lookup w _ e Hm Hg He).
Qed.

(** C10.  In every state reached from boot in which a round has begun,
    every live slot has [mkold_done] set.  So the test of the prepare phase
    (a live entry is found and has the flag) answers as the plain test that
    a live entry is found, and a visit of the prepare phase whose sample
    frame has a live entry does nothing but draw the sample.  That holds in
    particular for the entry the hot-check path has just written, be it for
    the sample frame or, for a huge mapping, for the base frame of the
    unit. *)
Theorem live_entries_are_marked (w : world) :
  reachable w -> damon_pa_cache_gen w <> 0 ->
  Forall (fun e => live w e = true -> ent_mkold_done e = true)
         (damon_pa_cache w) /\
  (forall F : Z,
     dedup_hit w F = bool_decide (is_Some (damon_pa_cache_lookup w F))) /\
  (forall r : damon_region,
     is_Some (damon_pa_cache_lookup w
                (PHYS_PFN (sampling_addr (snd (draw_sample w r))))) ->
     __damon_pa_prepare_access_check w r = draw_sample w r) /\
  (forall r r2 : damon_region,
     let pfn := PHYS_PFN (sampling_addr r) in
     let page_sz := snd (damon_pa_young_mm (mm w) pfn PAGE_SIZE) in
     let written :=
       if PAGE_SIZE <? page_sz then huge_base_pfn pfn page_sz else pfn in
     let w' := fst (__damon_pa_check_access w r) in
     resolved_hit w pfn = None ->
     PHYS_PFN (sampling_addr (snd (draw_sample w' r2))) = written ->
     __damon_pa_prepare_access_check w' r2 = draw_sample w' r2).
Proof.
  intros Hr Hg. pose proof (reachable_marked w Hr) as Hm.
  split; [|split; [|split]].
  - unfold marked in Hm. eapply Forall_impl; [exact Hm|].
    intros e He Hl. apply He. unfold live in Hl. lia.
  - intros F. unfold dedup_hit.
    destruct (damon_pa_cache_lookup w F) as [e|] eqn:He.
    + rewrite (marked_lookup w F e) by done.
      symmetry. apply bool_decide_eq_true. eauto.
    + symmetry. apply bool_decide_eq_false. by intros [? ?].
  - intros r. by apply prepare_skips_found.
  - intros r r2 pfn page_sz written w' Hmiss Hsame.
    assert (reachable w') as Hr' by by apply reach_check.
    apply prepare_skips_found.
    + by apply reachable_marked.
    + unfold w'. by rewrite check_gen.
    + rewrite Hsame. apply not_eq_None_Some.
      unfold w', written, page_sz.
      rewrite check_cases. fold pfn. rewrite Hmiss.
      rewrite check_access_slow_world. simpl. fold pfn.
      pose proof (reachable_cache_sized w Hr) as Hs.
      destruct (damon_pa_young_mm (mm w) pfn PAGE_SIZE) as [a sz]. simpl.
      assert (cache_sized (log w (EvYoung (sampling_addr r)))) as Hs1 by done.
      destruct (PAGE_SIZE <? sz).
      * apply lookup_claim_fill. by apply cache_sized_claim_fill.
      * by apply lookup_claim_fill.
Qed.

(** Witness of [live_entries_are_marked]: the state after the first round
    has prepared frame 1. *)
Lemma live_entries_are_marked_witness :
  dedup_hit w_round1 1
  = bool_decide (is_Some (damon_pa_cache_lookup w_round1 1)).
Proof.
  assert (reachable w_round1) as Hr.
  { apply reachable_prepare_access_checks. apply reach_boot. }
  assert (damon_pa_cache_gen w_round1 <> 0) as Hg.
  { vm_compute. discriminate. }
  exact (proj1 (proj2 (live_entries_are_marked w_round1 Hr Hg)) 1).
Defined.

(** ** Deduplication of the mark-cold calls *)

Lemma mkold_calls_app F t t' :
  mkold_calls F (t ++ t') = (mkold_calls F t + mkold_calls F t')%nat.
Proof. unfold mkold_calls. by rewrite List.filter_app, length_app. Qed.

Lemma prepare_region w r :
  snd (__damon_pa_prepare_access_check w r) = snd (draw_sample w r).
Proof.
  rewrite prepare_cases. destruct (draw_sample w r) as [w1 r1]. simpl.
  by destruct (dedup_hit _ _).
Qed.

Lemma dedup_hit_found w F :
  dedup_hit w F = true -> is_Some (damon_pa_cache_lookup w F).
Proof.
  unfold dedup_hit. destruct (damon_pa_cache_lookup w F); [eauto|done].
Qed.

(** A visit of the prepare phase leaves a live entry for its sample frame
    and calls the oracle at most once. *)
Lemma prepare_leaves_entry w r :
  cache_sized w ->
  let w1 := fst (__damon_pa_prepare_access_check w r) in
  let F := PHYS_PFN (sampling_addr (snd (__damon_pa_prepare_access_check w r))) in
  is_Some (damon_pa_cache_lookup w1 F) /\
  (mkold_calls F (trace w1) <= S (mkold_calls F (trace w)))%nat.
Proof.
  intros Hs. rewrite prepare_cases.
  destruct (draw_sample_cache w r) as (Hc & Hg & _ & Ht).
  destruct (draw_sample w r) as [wd rd]. simpl in *.
  destruct (dedup_hit wd _) eqn:Hd; simpl.
  - split; [by apply dedup_hit_found|]. rewrite Ht. lia.
  - split.
    + apply not_eq_None_Some, lookup_claim_fill.
      unfold cache_sized, damon_pa_mkold. simpl. by rewrite Hc.
    + unfold cache_claim_fill, damon_pa_mkold. simpl.
      rewrite mkold_calls_app, Ht. unfold mkold_calls at 2. simpl.
      destruct (_ =? _); simpl; lia.
Qed.

(** C3, counterexample.  The first round after boot visits six regions.
    The frames of the first five hash to one bucket, so the fifth claim
    finds the probe window full and overwrites the slot of the first; the
    sixth region samples the frame of the first again, misses, and the
    mark-cold operation is called on frame 1 a second time. *)
Lemma prepare_marks_twice_after_eviction :
  let '(w, ctx) :=
    damon_pa_prepare_access_checks (boot mm_frame1 no_draws) ctx_evict in
  map (fun r => PHYS_PFN (sampling_addr r)) (concat ctx)
  = [1; 234; 611; 844; 988; 1] /\
  mkold_calls 1 (trace w) = 2%nat.
Proof. vm_compute. done. Qed.

(** ** The hot test on frames that cannot be walked *)

(** A frame without a page and a page whose lock is contended are reported
    as not accessed. *)
Lemma young_unresolved_is_cold (m : gmap Z page) (pfn page_sz : Z) :
  (m !! pfn = None -> damon_pa_young_mm m pfn page_sz = (false, page_sz)) /\
  (forall p, m !! pfn = Some p ->
     page_mapped p = true -> page_rmapping p = true ->
     negb (PageAnon p) || PageKsm p = true -> page_trylock p = false ->
     damon_pa_young_mm m pfn page_sz = (false, PAGE_SIZE)).
Proof.
  unfold damon_pa_young_mm. split.
  - by intros ->.
  - intros p -> -> -> -> ->. done.
Qed.

(** C1, as amended.  For a frame whose page is not mapped or not
    reverse-mappable when the hot test runs, the test reports the base page
    size and reports the frame accessed exactly when the idle flag of the
    page is clear; on the slow path of the check the counter of the region
    is incremented exactly in that case. *)
Theorem young_of_unmapped_page (w : world) (r : damon_region) (p : page) :
  mm w !! PHYS_PFN (sampling_addr r) = Some p ->
  page_mapped p = false \/ page_rmapping p = false ->
  snd (damon_pa_young w (sampling_addr r) PAGE_SIZE)
  = (negb (page_is_idle p), PAGE_SIZE) /\
  (resolved_hit w (PHYS_PFN (sampling_addr r)) = None ->
   snd (__damon_pa_check_access w r)
   = if page_is_idle p then r else inc_nr_accesses r).
Proof.
  intros Hp Hun.
  assert (damon_pa_young_mm (mm w) (PHYS_PFN (sampling_addr r)) PAGE_SIZE
          = (negb (page_is_idle p), PAGE_SIZE)) as Hy.
  { unfold damon_pa_young_mm. rewrite Hp.
    assert (negb (page_mapped p) || negb (page_rmapping p) = true) as ->.
    { destruct Hun as [-> | ->]; [done|]. apply orb_true_r. }
    by destruct (page_is_idle p). }
  split; [exact Hy|].
  intros Hmiss. rewrite check_cases, Hmiss, check_access_slow_region, Hy.
  by destruct (page_is_idle p).
Qed.

(** Witness of [young_of_unmapped_page]: frame 1, unmapped and not idle. *)
Lemma young_of_unmapped_page_witness :
  snd (damon_pa_young w_unmapped_touched 4096 PAGE_SIZE) = (true, PAGE_SIZE).
Proof.
  refine (proj1 (young_of_unmapped_page w_unmapped_touched
                   {| ar_start := 4096; ar_end := 8192;
                      sampling_addr := 4096; nr_accesses := 0 |}
                   (unmapped_page false) _ _)).
  - vm_compute. reflexivity.
  - left. reflexivity.
Defined.

(** C1, counterexample.  The page of frame 1 is not mapped; the prepare
    phase has marked it idle and it has been read since.  The hot test
    reports the frame accessed and the check phase counts the access. *)
Lemma young_unmapped_not_idle_is_hot :
  (exists p, mm w_unmapped_touched !! 1 = Some p /\ page_mapped p = false) /\
  map sampling_addr (concat ctx_frame1) = [4096] /\
  snd (damon_pa_young w_unmapped_touched 4096 PAGE_SIZE) = (true, PAGE_SIZE) /\
  map nr_accesses (concat ctx_frame1) = [0] /\
  map nr_accesses
      (concat (snd (fst (damon_pa_check_accesses w_unmapped_touched
                                                 ctx_frame1)))) = [1].
Proof.
  split; [|vm_compute; done].
  exists (unmapped_page false). split; [|done]. vm_compute. reflexivity.
Qed.

(** ** The value [damon_pa_check_accesses] returns *)

Lemma for_each_app {S A : Type} (body : S -> A -> S * A) (l1 l2 : list A) :
  forall s,
    for_each body s (l1 ++ l2) =
    let '(s1, l1') := for_each body s l1 in
    let '(s2, l2') := for_each body s1 l2 in
    (s2, l1' ++ l2').
Proof.
  induction l1 as [|x l1 IH]; intros s; simpl.
  - by destruct (for_each body s l2).
  - destruct (body s x) as [s1 x']. rewrite IH.
    destruct (for_each body s1 l1) as [s2 l1'].
    by destruct (for_each body s2 l2).
Qed.

(** The nested loops visit the regions of all targets in one sequence. *)
Lemma for_each_concat {S A : Type} (body : S -> A -> S * A)
    (ll : list (list A)) :
  forall s,
    for_each body s (concat ll) =
    let '(s', ll') := for_each (for_each body) s ll in (s', concat ll').
Proof.
  induction ll as [|l ll IH]; intros s; simpl; [done|].
  rewrite for_each_app. destruct (for_each body s l) as [s1 l'].
  rewrite IH. by destruct (for_each (for_each body) s1 ll).
Qed.

Lemma for_each_lengths {S A : Type} (body : S -> A -> S * A)
    (ll : list (list A)) :
  forall s,
    map length (snd (for_each (for_each body) s ll)) = map length ll.
Proof.
  assert (forall (l : list A) s, length (snd (for_each body s l)) = length l)
    as Hl.
  { induction l as [|x l IH]; intros s; simpl; [done|].
    destruct (body s x) as [s1 x']. specialize (IH s1).
    destruct (for_each body s1 l). simpl in *. by rewrite IH. }
  induction ll as [|l ll IH]; intros s; simpl; [done|].
  specialize (Hl l s). destruct (for_each body s l) as [s1 l'].
  specialize (IH s1). destruct (for_each (for_each body) s1 ll).
  simpl in *. by rewrite Hl, IH.
Qed.

Lemma max_nr_accesses_of_nonneg rs : 0 <= max_nr_accesses_of rs.
Proof.
  unfold max_nr_accesses_of. induction rs as [|r rs IH]; simpl; lia.
Qed.

Lemma check_accesses_body_flat rs : forall w mx,
  0 <= mx ->
  for_each check_accesses_body (w, mx) rs =
  let '(w', rs') := for_each __damon_pa_check_access w rs in
  ((w', Z.max (max_nr_accesses_of rs') mx), rs').
Proof.
  induction rs as [|r rs IH]; intros w mx Hmx; simpl.
  - f_equal. f_equal. unfold max_nr_accesses_of. simpl. lia.
  - destruct (__damon_pa_check_access w r) as [w1 r1]. rewrite IH by lia.
    destruct (for_each __damon_pa_check_access w1 rs) as [w2 rs'].
    f_equal. f_equal. unfold max_nr_accesses_of. simpl. lia.
Qed.

Lemma check_counters rs : forall w,
  map nr_accesses (snd (for_each __damon_pa_check_access w rs)) =
  zip_with (fun r (b : bool) =>
              if b then uint (nr_accesses r + 1) else nr_accesses r)
           rs (found_flags w rs).
Proof.
  induction rs as [|r rs IH]; intros w; simpl; [done|].
  pose proof (check_region w r) as Hr. specialize (IH (fst (__damon_pa_check_access w r))).
  destruct (__damon_pa_check_access w r) as [w1 r1]. simpl in *.
  destruct (for_each __damon_pa_check_access w1 rs) as [w2 rs']. simpl in *.
  rewrite IH, Hr. by destruct (found_accessed w r).
Qed.

(** C7.  [damon_pa_check_accesses] returns the largest [nr_accesses] among
    the regions of all targets as it leaves them, 0 when there is none; it
    leaves each region with its counter incremented (in [unsigned int]) when
    the sample frame was found accessed at the visit, and unchanged
    otherwise; the targets keep their regions. *)
Theorem check_accesses_returns_max (w : world) (ctx : damon_ctx) :
  let '(w', ctx', ret) := damon_pa_check_accesses w ctx in
  ret = max_nr_accesses_of (concat ctx') /\
  map nr_accesses (concat ctx') =
    zip_with (fun r (b : bool) =>
                if b then uint (nr_accesses r + 1) else nr_accesses r)
             (concat ctx) (found_flags w (concat ctx)) /\
  map sampling_addr (concat ctx') = map sampling_addr (concat ctx) /\
  map length ctx' = map length ctx.
Proof.
  unfold damon_pa_check_accesses.
  pose proof (for_each_concat check_accesses_body ctx (w, 0)) as Hc.
  pose proof (for_each_lengths check_accesses_body ctx (w, 0)) as Hl.
  destruct (for_each (for_each check_accesses_body) (w, 0) ctx)
    as [[w' mx] ctx'].
  rewrite check_accesses_body_flat in Hc by done.
  pose proof (check_counters (concat ctx) w) as Hn.
  assert (map sampling_addr (snd (for_each __damon_pa_check_access w (concat ctx)))
          = map sampling_addr (concat ctx)) as Ha.
  { generalize (concat ctx) w. induction l as [|r rs IH]; intros w0; simpl; [done|].
    pose proof (check_region w0 r) as Hr.
    specialize (IH (fst (__damon_pa_check_access w0 r))).
    destruct (__damon_pa_check_access w0 r) as [w1 r1]. simpl in *.
    destruct (for_each __damon_pa_check_access w1 rs) as [w2 rs']. simpl in *.
    rewrite IH, Hr. by destruct (found_accessed w0 r). }
  destruct (for_each __damon_pa_check_access w (concat ctx)) as [w2 rs'].
  simpl in *. inversion Hc; subst.
  pose proof (max_nr_accesses_of_nonneg (concat ctx')).
  repeat split; [lia|done|done|done].
Qed.

(** ** The reclaim executor *)

Lemma PAGE_SIZE_eq : PAGE_SIZE = 4096.
Proof. reflexivity. Qed.

Lemma pageout_scan_done fuel w addr end_ pl :
  (addr <? end_) = false -> pageout_scan fuel w addr end_ pl = Some (w, pl).
Proof. intros H. destruct fuel; simpl; by rewrite H. Qed.

Lemma pageout_scan_step fuel w addr end_ pl :
  (addr <? end_) = true ->
  pageout_scan (S fuel) w addr end_ pl =
  let '(w, pl) := pageout_scan_body w addr pl in
  pageout_scan fuel w (ulong (addr + PAGE_SIZE)) end_ pl.
Proof. intros H. simpl. by rewrite H. Qed.

(** What one iteration of the scan logs and collects. *)
Lemma pageout_scan_body_spec w addr pl :
  exists evs,
    trace (fst (pageout_scan_body w addr pl)) = trace w ++ evs /\
    (~ In EvCondResched evs) /\
    (length (snd (pageout_scan_body w addr pl)) <= S (length pl))%nat.
Proof.
  unfold pageout_scan_body, damon_get_page. simpl.
  destruct (mm w !! PHYS_PFN addr) as [p|]; simpl.
  - destruct (isolate_busy p); [|destruct (PageUnevictable p)]; simpl;
      rewrite <- ?app_assoc; simpl; eexists; (split; [reflexivity|]);
      (split; [|lia]); simpl; intros H; decompose [or] H; done.
  - eexists. split; [reflexivity|]. split; [|lia].
    simpl. intros H; decompose [or] H; done.
Qed.

(** With no wrap-around in sight the scan ends, yields nowhere, and
    collects at most one page per frame of the range. *)
Lemma pageout_scan_terminates end_ fuel : forall w addr pl,
  0 <= addr -> end_ <= 2 ^ 64 - PAGE_SIZE ->
  end_ - addr <= Z.of_nat fuel * PAGE_SIZE ->
  exists w1 pl1 evs,
    pageout_scan fuel w addr end_ pl = Some (w1, pl1) /\
    trace w1 = trace w ++ evs /\
    (~ In EvCondResched evs) /\
    Z.of_nat (length pl1) * PAGE_SIZE
    <= Z.of_nat (length pl) * PAGE_SIZE + Z.max 0 (end_ - addr + PAGE_SIZE - 1).
Proof.
  rewrite PAGE_SIZE_eq.
  induction fuel as [|fuel IH]; intros w addr pl Ha He Hf.
  - exists w, pl, []. rewrite pageout_scan_done by lia.
    rewrite app_nil_r. repeat split; [by intros []|lia].
  - destruct (addr <? end_) eqn:Hlt.
    + rewrite pageout_scan_step by done.
      destruct (pageout_scan_body_spec w addr pl) as (evs & Ht & Hny & Hl).
      destruct (pageout_scan_body w addr pl) as [w0 pl0]. simpl in Ht, Hl.
      rewrite PAGE_SIZE_eq. unfold ulong.
      change (2 ^ BITS_PER_LONG) with (2 ^ 64).
      rewrite Z.mod_small by lia.
      destruct (IH w0 (addr + 4096) pl0) as (w1 & pl1 & evs1 & Hs & Ht1 & Hny1 & Hl1);
        [lia|lia|lia|].
      exists w1, pl1, (evs ++ evs1). split; [done|]. split.
      { by rewrite Ht1, Ht, app_assoc. }
      split.
      { rewrite in_app_iff. tauto. }
      lia.
    + exists w, pl, []. rewrite pageout_scan_done by done.
      rewrite app_nil_r. repeat split; [by intros []|lia].
Qed.

Lemma reclaimed_count_bound m pl :
  0 <= reclaimed_count m pl <= Z.of_nat (length pl).
Proof.
  unfold reclaimed_count.
  pose proof (List.filter_length_le
    (fun pfn => match m !! pfn with
                | Some p => page_reclaimable p | None => false end) pl).
  lia.
Qed.

Lemma scan_fuel_enough r fuel :
  (scan_fuel r <= fuel)%nat ->
  ar_end r - ar_start r <= Z.of_nat fuel * PAGE_SIZE.
Proof.
  unfold scan_fuel. rewrite PAGE_SIZE_eq. intros H.
  destruct (Z.le_gt_cases (ar_end r - ar_start r) 0); [lia|].
  pose proof (Z.div_mod (ar_end r - ar_start r) 4096 ltac:(lia)).
  pose proof (Z.mod_pos_bound (ar_end r - ar_start r) 4096 ltac:(lia)).
  assert (0 <= (ar_end r - ar_start r) / 4096) by (apply Z.div_pos; lia).
  lia.
Qed.

(** C9.  For a scheme whose action is not DAMOS_PAGEOUT,
    [damon_pa_apply_scheme] returns 0 and leaves the world as it was: it
    logs no call, so no frame lookup, no reference clearing, no isolation.
    For DAMOS_PAGEOUT on a region whose range does not reach the top page
    of the address space, it returns, and the value is the number of pages
    [reclaim_pages] freed, of the list the scan collected, times
    [PAGE_SIZE]. *)
Theorem apply_scheme_result (w : world) (r : damon_region) (scheme : damos) :
  (action scheme <> DAMOS_PAGEOUT ->
   forall fuel, damon_pa_apply_scheme fuel w r scheme = Some (w, 0)) /\
  (action scheme = DAMOS_PAGEOUT ->
   0 <= ar_start r -> ar_end r <= 2 ^ 64 - PAGE_SIZE ->
   forall fuel, (scan_fuel r <= fuel)%nat ->
   exists w1 page_list,
     pageout_scan fuel w (ar_start r) (ar_end r) [] = Some (w1, page_list) /\
     damon_pa_apply_scheme fuel w r scheme
     = Some (log (log w1 (EvReclaim page_list)) EvCondResched,
             reclaimed_count (mm w1) page_list * PAGE_SIZE)).
Proof.
  split.
  - intros Hne fuel. unfold damon_pa_apply_scheme.
    by rewrite bool_decide_eq_false_2.
  - intros Hact Hs He fuel Hfuel. unfold damon_pa_apply_scheme.
    rewrite bool_decide_eq_true_2 by done. simpl.
    destruct (pageout_scan_terminates (ar_end r) fuel w (ar_start r) [])
      as (w1 & pl & evs & Hscan & _ & _ & Hlen);
      [done|done|by apply scan_fuel_enough|].
    exists w1, pl. split; [done|]. rewrite Hscan. simpl.
    do 2 f_equal. unfold ulong. change (2 ^ BITS_PER_LONG) with (2 ^ 64).
    pose proof (reclaimed_count_bound (mm w1) pl).
    rewrite PAGE_SIZE_eq in *. simpl in Hlen.
    apply Z.mod_small. lia.
Qed.

(** Witness of [apply_scheme_result]: paging out the region of frames 1
    and 2, both reclaimable, returns two pages' worth of bytes. *)
Lemma apply_scheme_result_witness :
  exists w1 page_list,
    pageout_scan 3 (boot mm_two_pages no_draws) 4096 12288 []
    = Some (w1, page_list) /\
    damon_pa_apply_scheme 3 (boot mm_two_pages no_draws) two_pages
                          pageout_scheme
    = Some (log (log w1 (EvReclaim page_list)) EvCondResched,
            reclaimed_count (mm w1) page_list * PAGE_SIZE).
Proof.
  refine (proj2 (apply_scheme_result (boot mm_two_pages no_draws) two_pages
                   pageout_scheme) _ _ _ 3%nat _).
  - reflexivity.
  - simpl. lia.
  - vm_compute. discriminate.
  - vm_compute. lia.
Defined.

(** C8, as amended.  For DAMOS_PAGEOUT, [damon_pa_apply_scheme] calls
    [cond_resched] exactly once per call, after the scan of the whole range
    and after the collected pages were handed to [reclaim_pages]; during the
    scan it does not yield, however many frames the region spans. *)
Theorem apply_scheme_yields_once (w : world) (r : damon_region)
    (scheme : damos) (fuel : nat) :
  action scheme = DAMOS_PAGEOUT ->
  0 <= ar_start r -> ar_end r <= 2 ^ 64 - PAGE_SIZE ->
  (scan_fuel r <= fuel)%nat ->
  exists w' n scan_events page_list,
    damon_pa_apply_scheme fuel w r scheme = Some (w', n) /\
    trace w' = trace w ++ scan_events ++ [EvReclaim page_list; EvCondResched] /\
    ~ In EvCondResched scan_events.
Proof.
  intros Hact Hs He Hfuel. unfold damon_pa_apply_scheme.
  rewrite bool_decide_eq_true_2 by done. simpl.
  destruct (pageout_scan_terminates (ar_end r) fuel w (ar_start r) [])
    as (w1 & pl & evs & Hscan & Ht & Hny & _);
    [done|done|by apply scan_fuel_enough|].
  rewrite Hscan. simpl. eexists _, _, evs, pl. split; [reflexivity|].
  split; [|done]. simpl. rewrite Ht, <- !app_assoc. done.
Qed.

(** Witness of [apply_scheme_yields_once]: paging out frames 1 and 2. *)
Lemma apply_scheme_yields_once_witness :
  exists w' n scan_events page_list,
    damon_pa_apply_scheme 3 (boot mm_two_pages no_draws) two_pages
                          pageout_scheme = Some (w', n) /\
    trace w' = trace (boot mm_two_pages no_draws) ++ scan_events
               ++ [EvReclaim page_list; EvCondResched] /\
    ~ In EvCondResched scan_events.
Proof.
  refine (apply_scheme_yields_once (boot mm_two_pages no_draws) two_pages
            pageout_scheme 3%nat _ _ _ _).
  - reflexivity.
  - simpl. lia.
  - vm_compute. discriminate.
  - vm_compute. lia.
Defined.

Lemma unyielded_run_lookups l : forall c t,
  unyielded_run c (map EvGetPage l ++ t) = unyielded_run (c + length l) t.
Proof.
  induction l as [|x l IH]; intros c t; simpl.
  - f_equal. lia.
  - rewrite IH. f_equal. lia.
Qed.

(** The scan of [n] frames none of which has a page: [n] lookups. *)
Lemma pageout_scan_empty n : forall w addr pl,
  mm w = ∅ -> 0 <= addr -> addr + Z.of_nat n * PAGE_SIZE < 2 ^ 64 ->
  exists w' l,
    pageout_scan n w addr (addr + Z.of_nat n * PAGE_SIZE) pl = Some (w', pl) /\
    trace w' = trace w ++ map EvGetPage l /\ length l = n.
Proof.
  rewrite PAGE_SIZE_eq.
  induction n as [|n IH]; intros w addr pl Hm Ha Hn.
  - exists w, []. rewrite pageout_scan_done by (apply Z.ltb_ge; lia).
    by rewrite app_nil_r.
  - rewrite pageout_scan_step by (apply Z.ltb_lt; lia).
    unfold pageout_scan_body, damon_get_page. simpl. rewrite Hm, lookup_empty.
    rewrite PAGE_SIZE_eq. unfold ulong.
    change (2 ^ BITS_PER_LONG) with (2 ^ 64). rewrite Z.mod_small by lia.
    replace (addr + Z.of_nat (S n) * 4096)
      with ((addr + 4096) + Z.of_nat n * 4096) by lia.
    destruct (IH (log w (EvGetPage (PHYS_PFN addr))) (addr + 4096) pl)
      as (w' & l & Hs & Ht & Hl); [done|lia|lia|].
    exists w', (PHYS_PFN addr :: l). split; [done|]. split.
    + rewrite Ht. simpl. by rewrite <- app_assoc.
    + simpl. by rewrite Hl.
Qed.

(** C8, counterexample.  No period [K] short of the whole address space
    bounds the number of frames the scan looks up between two yields: the
    scan of the region of the first [K + 1] frames looks up all of them in a
    row, and the only [cond_resched] comes after the scan. *)
Lemma pageout_scan_never_yields :
  ~ exists K : nat,
      Z.of_nat K * PAGE_SIZE < 2 ^ 64 - 2 * PAGE_SIZE /\
      forall (r : damon_region) (fuel : nat) (w' : world) (n : Z),
        0 <= ar_start r -> ar_end r <= 2 ^ 64 - PAGE_SIZE ->
        damon_pa_apply_scheme fuel (boot ∅ no_draws) r pageout_scheme
        = Some (w', n) ->
        (unyielded_run 0 (trace w') <= K)%nat.
Proof.
  intros (K & HK & H). rewrite PAGE_SIZE_eq in HK.
  destruct (pageout_scan_empty (S K) (boot ∅ no_draws) 0 [])
    as (w1 & l & Hs & Ht & Hl); [done|lia|rewrite PAGE_SIZE_eq; lia|].
  specialize (H (first_frames (S K)) (S K)
                (log (log w1 (EvReclaim [])) EvCondResched)
                (ulong (reclaimed_count (mm w1) [] * PAGE_SIZE))).
  assert (unyielded_run 0 (trace (log (log w1 (EvReclaim [])) EvCondResched))
          = S K) as Hrun.
  { simpl. rewrite Ht. simpl. rewrite <- app_assoc.
    rewrite unyielded_run_lookups. simpl. rewrite Hl. lia. }
  rewrite Hrun in H. enough (S K <= K)%nat by lia. apply H.
  - simpl. lia.
  - simpl. rewrite PAGE_SIZE_eq. lia.
  - unfold damon_pa_apply_scheme, first_frames, pageout_scheme.
    cbn [action ar_start ar_end]. rewrite bool_decide_eq_true_2 by done.
    cbn [negb]. rewrite Z.add_0_l in Hs. by rewrite Hs.
Qed.

(** ** Where the cache does not do what its comments say *)

(** C2, the code at the failing input.  Frames 513 and 514 lie in one
    huge unit (base frame 512).  The hot test of frame 513 reports a huge
    mapping, and the result is stored for frames 513 and 512.  The region
    visited next samples frame 514: the lookup is by that very frame
    number, finds nothing resolved, and the hot test is called again.  The
    same happens when the next region samples the base frame 512 itself:
    the lookup returns the unresolved entry the prepare phase wrote. *)
Lemma check_huge_sibling_calls_oracle :
  damon_pa_young_mm mm_huge 513 PAGE_SIZE = (true, Z.shiftl 1 HPAGE_PMD_SHIFT) /\
  huge_base_pfn 514 (Z.shiftl 1 HPAGE_PMD_SHIFT)
  = huge_base_pfn 513 (Z.shiftl 1 HPAGE_PMD_SHIFT) /\
  drop (length (trace w_huge_prepared)) (trace w_huge_checked)
  = [EvYoung (513 * PAGE_SIZE); EvYoung (514 * PAGE_SIZE)] /\
  young_calls 514 (trace w_huge_checked) = 1%nat /\
  drop (length (trace w_unit_prepared)) (trace w_unit_checked)
  = [EvYoung (513 * PAGE_SIZE); EvYoung (512 * PAGE_SIZE)].
Proof. vm_compute. done. Qed.

(** With no live entry for the very frame sampled, the check calls the
    hot test, whatever else the table holds. *)
Lemma check_miss_calls_oracle w r :
  damon_pa_cache_lookup w (PHYS_PFN (sampling_addr r)) = None ->
  exists t, trace (fst (__damon_pa_check_access w r))
            = trace w ++ EvYoung (sampling_addr r) :: t.
Proof.
  intros Hmiss. rewrite check_cases. unfold resolved_hit. rewrite Hmiss.
  rewrite check_access_slow_world. simpl.
  destruct (damon_pa_young_mm _ _ _) as [a sz].
  unfold cache_claim_fill. destruct (_ <? _); simpl; by exists [].
Qed.

(** C4, the code at the failing input.  One round on one region: the
    prepare phase writes slot 97 for frame 1; the check phase looks frame 1
    up, finds that entry unresolved, and claims a slot anew, the next stale
    one, so that slots 97 and 98 are both live and both hold frame 1.  The
    lookup returns the older, unresolved one: when two regions sample
    frame 1, the hot test runs for each. *)
Lemma check_duplicates_live_entry :
  reachable w_frame1_checked /\
  live_slots_of w_frame1_checked 1 = [97; 98]%nat /\
  mkold_calls 1 (trace w_frame1_twice_checked) = 1%nat /\
  young_calls 1 (trace w_frame1_twice_checked) = 2%nat.
Proof.
  split; [|vm_compute; done].
  unfold w_frame1_checked.
  pose proof (reachable_prepare_access_checks (boot mm_frame1 no_draws)
                [[one_page 1]] (reach_boot _ _)) as Hr.
  destruct (damon_pa_prepare_access_checks _ _) as [w ctx].
  by apply reachable_check_accesses.
Qed.

(** ** Marking cold twice, and in either order *)

Lemma mkold_hit_after p h :
  damon_mkold_hit p h = (after_hits p [h], clear_hit h).
Proof.
  unfold damon_mkold_hit, after_hits. simpl. f_equal.
  destruct p, (hit_referenced h); simpl;
    by rewrite ?orb_true_r, ?orb_false_r.
Qed.

Lemma after_hits_app p l1 l2 :
  after_hits (after_hits p l1) l2 = after_hits p (l1 ++ l2).
Proof.
  unfold after_hits. simpl. rewrite existsb_app, !orb_assoc.
  f_equal. destruct l1, l2; simpl; by rewrite ?orb_true_r, ?orb_false_r.
Qed.

Lemma mkold_walk_after vma : forall p,
  __damon_pa_mkold p vma = (after_hits p vma, map clear_hit vma).
Proof.
  induction vma as [|h vma IH]; intros p.
  - simpl. f_equal. destruct p. unfold after_hits. simpl.
    by rewrite !orb_false_r.
  - cbn [__damon_pa_mkold]. rewrite mkold_hit_after, IH.
    by rewrite after_hits_app.
Qed.

Lemma rmap_walk_mkold_after vmas : forall p,
  rmap_walk_mkold p vmas
  = (after_hits p (concat vmas), map (map clear_hit) vmas).
Proof.
  induction vmas as [|vma vmas IH]; intros p.
  - simpl. f_equal. destruct p. unfold after_hits. simpl.
    by rewrite !orb_false_r.
  - cbn [rmap_walk_mkold]. rewrite mkold_walk_after, IH.
    by rewrite after_hits_app.
Qed.

Lemma clear_hit_idem l : map clear_hit (map clear_hit l) = map clear_hit l.
Proof. rewrite map_map. by apply map_ext. Qed.

Lemma cleared_not_referenced l :
  existsb hit_referenced (map clear_hit l) = false.
Proof. induction l; simpl; [done|]. by rewrite IHl. Qed.

Lemma mkold_page_walk p :
  negb (page_mapped p) || negb (page_rmapping p) = false ->
  (negb (PageAnon p) || PageKsm p) && negb (page_trylock p) = false ->
  damon_pa_mkold_page p
  = set_page_rmap (after_hits p (concat (page_rmap p)))
                  (map (map clear_hit) (page_rmap p)).
Proof.
  intros Hun Hlock. unfold damon_pa_mkold_page.
  by rewrite Hun, Hlock, rmap_walk_mkold_after.
Qed.

Lemma mkold_page_idem p :
  damon_pa_mkold_page (damon_pa_mkold_page p) = damon_pa_mkold_page p.
Proof.
  destruct (negb (page_mapped p) || negb (page_rmapping p)) eqn:Hun.
  { unfold damon_pa_mkold_page. simpl. rewrite Hun. simpl. rewrite Hun.
    by destruct p. }
  destruct ((negb (PageAnon p) || PageKsm p) && negb (page_trylock p))
    eqn:Hlock.
  { unfold damon_pa_mkold_page. by rewrite Hun, Hlock, Hun, Hlock. }
  rewrite (mkold_page_walk p) by done.
  rewrite mkold_page_walk by done.
  unfold set_page_rmap, after_hits. simpl.
  assert (map (map clear_hit) (map (map clear_hit) (page_rmap p))
          = map (map clear_hit) (page_rmap p)) as ->.
  { rewrite map_map. apply map_ext. intros. apply clear_hit_idem. }
  rewrite <- concat_map, cleared_not_referenced, orb_false_r.
  f_equal. destruct (concat (page_rmap p)); simpl;
    by rewrite ?orb_true_r, ?orb_false_r.
Qed.

Lemma mkold_mm_idem m F :
  damon_pa_mkold_mm (damon_pa_mkold_mm m F) F = damon_pa_mkold_mm m F.
Proof.
  unfold damon_pa_mkold_mm. destruct (m !! F) as [p|] eqn:Hp.
  - rewrite lookup_insert_eq, insert_insert_eq. by rewrite mkold_page_idem.
  - by rewrite Hp.
Qed.

Lemma mkold_mm_comm m F G :
  damon_pa_mkold_mm (damon_pa_mkold_mm m F) G
  = damon_pa_mkold_mm (damon_pa_mkold_mm m G) F.
Proof.
  destruct (decide (F = G)) as [->|Hne]; [done|].
  unfold damon_pa_mkold_mm.
  destruct (m !! F) as [p|] eqn:Hp, (m !! G) as [q|] eqn:Hq;
    rewrite ?lookup_insert_ne, ?Hp, ?Hq by done; try done.
  by apply insert_insert_ne.
Qed.

(** ** The results do not depend on the table *)

Lemma invalidate_stale w :
  damon_pa_cache_gen w <> 0 ->
  Forall (fun e => ent_gen e <> damon_pa_cache_gen w)
         (damon_pa_cache (damon_pa_cache_invalidate w)).
Proof.
  intros Hg. unfold damon_pa_cache_invalidate. cbn [damon_pa_cache set_cache].
  apply Forall_replicate. simpl. congruence.
Qed.

Lemma prep_inv_invalidate_if b w : prep_inv w -> prep_inv (invalidate_if b w).
Proof.
  destruct b; [|done]. intros [Hg _]. split; [done|].
  eapply Forall_impl; [by apply invalidate_stale|].
  intros e He Hl. by destruct He.
Qed.

Lemma check_inv_invalidate_if b w :
  check_inv w -> check_inv (invalidate_if b w).
Proof.
  destruct b; [|done]. intros [Hg _]. split; [done|].
  eapply Forall_impl; [by apply invalidate_stale|].
  intros e He Hl. by destruct He.
Qed.

Lemma same_but_cache_invalidate_if b w w' :
  same_but_cache w w' -> same_but_cache w (invalidate_if b w').
Proof. by destruct b. Qed.

Lemma prep_inv_round_begin w :
  fresh w -> prep_inv (damon_pa_cache_round_begin w).
Proof.
  intros Hf. split; [apply round_begin_gen_nonzero|].
  unfold fresh in Hf. eapply Forall_impl; [exact Hf|].
  intros e He Hl. by destruct He.
Qed.

Lemma prep_inv_check_inv w m : prep_inv w -> check_inv (set_mm w m).
Proof.
  intros [Hg Hf]. split; [done|]. eapply Forall_impl; [exact Hf|].
  simpl. intros e He Hl Hsz. by destruct (He Hl).
Qed.

(** What a visit of the prepare phase computes, whatever the table holds. *)
Lemma prepare_normal w r :
  prep_inv w ->
  let w1 := fst (__damon_pa_prepare_access_check w r) in
  let rd := snd (draw_sample w r) in
  snd (__damon_pa_prepare_access_check w r) = rd /\
  mm w1 = damon_pa_mkold_mm (mm w) (PHYS_PFN (sampling_addr rd)) /\
  damon_pa_cache_gen w1 = damon_pa_cache_gen w /\
  prandom w1 = prandom w /\
  prandom_pos w1 = S (prandom_pos w) /\
  prep_inv w1.
Proof.
  intros [Hg Hinv] w1 rd. split; [apply prepare_region|].
  unfold w1, rd. rewrite prepare_cases.
  unfold draw_sample, damon_rand. cbn [fst snd].
  set (wd := {| damon_pa_cache := damon_pa_cache w;
                damon_pa_cache_gen := damon_pa_cache_gen w; mm := mm w;
                prandom := prandom w; prandom_pos := S (prandom_pos w);
                trace := trace w |}).
  set (r1 := set_sampling_addr r _).
  set (F := PHYS_PFN (sampling_addr r1)).
  destruct (dedup_hit wd F) eqn:Hd; cbn [fst].
  - apply dedup_hit_found in Hd as [e He].
    apply lookup_Some in He as (_ & Hl & Hp).
    unfold wd in Hl, Hp. cbn [damon_pa_cache damon_pa_cache_gen] in Hl, Hp.
    pose proof (live_slot_lookup _ _ _ Hg Hl) as Hs.
    pose proof Hinv as Hall.
    rewrite Forall_lookup in Hinv. specialize (Hinv _ _ Hs Hl).
    rewrite Hp in Hinv. destruct Hinv as [_ Hcold].
    repeat split; try done.
  - unfold cache_claim_fill, cache_fill, damon_pa_mkold. simpl.
    repeat split; try done.
    apply Forall_insert.
    + eapply Forall_impl; [exact Hinv|]. simpl. intros e He Hl.
      destruct (He Hl) as [Hsz Hcold]. split; [done|].
      by rewrite mkold_mm_comm, Hcold.
    + simpl. intros _. split; [done|]. apply mkold_mm_idem.
Qed.

(** What a visit of the check phase computes, whatever the table holds. *)
Lemma check_normal w r :
  check_inv w -> huge_consistent (mm w) ->
  let w1 := fst (__damon_pa_check_access w r) in
  snd (__damon_pa_check_access w r)
  = (if fst (damon_pa_young_mm (mm w) (PHYS_PFN (sampling_addr r)) PAGE_SIZE)
     then inc_nr_accesses r else r) /\
  mm w1 = mm w /\
  damon_pa_cache_gen w1 = damon_pa_cache_gen w /\
  prandom w1 = prandom w /\
  prandom_pos w1 = prandom_pos w /\
  check_inv w1.
Proof.
  intros [Hg Hinv] Hhuge w1. unfold w1. rewrite check_cases.
  set (F := PHYS_PFN (sampling_addr r)).
  destruct (resolved_hit w F) as [acc|] eqn:Hhit.
  - unfold resolved_hit in Hhit.
    destruct (damon_pa_cache_lookup w F) as [e|] eqn:He; [|done].
    destruct (negb _) eqn:Hsz; [|done]. injection Hhit as <-.
    apply lookup_Some in He as (_ & Hl & Hp).
    pose proof (live_slot_lookup _ _ _ Hg Hl) as Hs.
    pose proof Hinv as Hall.
    rewrite Forall_lookup in Hinv. specialize (Hinv _ _ Hs Hl).
    rewrite Hp in Hinv. rewrite Hinv by lia. cbn [fst snd].
    repeat split; try done.
  - rewrite check_access_slow_region, check_access_slow_world. fold F.
    split; [done|]. cbn zeta.
    destruct (damon_pa_young_mm (mm w) F PAGE_SIZE) as [a sz] eqn:Hy.
    assert (Forall
      (fun e => ent_gen e = damon_pa_cache_gen w -> ent_page_sz e <> 0 ->
                ent_accessed e
                = fst (damon_pa_young_mm (mm w) (ent_pfn e) PAGE_SIZE))
      (damon_pa_cache
         (cache_claim_fill (log w (EvYoung (sampling_addr r))) (F, sz, a))))
      as Hinv1.
    { unfold cache_claim_fill, cache_fill. simpl.
      apply Forall_insert; [done|]. simpl. intros _ _. by rewrite Hy. }
    destruct (PAGE_SIZE <? sz) eqn:Hsz.
    + unfold cache_claim_fill at 1 2 3 4 5 6. unfold cache_fill.
      cbn [mm damon_pa_cache_gen prandom prandom_pos damon_pa_cache set_cache].
      repeat split; try done.
      apply Forall_insert; [done|]. simpl. intros _ _.
      symmetry. apply (Hhuge F a sz Hy). lia.
    + repeat split; try done.
Qed.

(** Two loops whose bodies keep a relation between their states keep it,
    and leave the same elements. *)
Lemma for_each_rel {S S' A : Type} (R : S -> S' -> Prop)
    (body : S -> A -> S * A) (body' : S' -> A -> S' * A) :
  (forall s s' x, R s s' ->
     R (fst (body s x)) (fst (body' s' x)) /\
     snd (body s x) = snd (body' s' x)) ->
  forall l s s', R s s' ->
    R (fst (for_each body s l)) (fst (for_each body' s' l)) /\
    snd (for_each body s l) = snd (for_each body' s' l).
Proof.
  intros Hb. induction l as [|x l IH]; intros s s' HR; simpl; [done|].
  destruct (Hb s s' x HR) as [HR1 Hx].
  destruct (body s x) as [s1 x1], (body' s' x) as [s1' x1']. simpl in *.
  destruct (IH s1 s1' HR1) as [HR2 Hl].
  destruct (for_each body s1 l) as [s2 l2],
           (for_each body' s1' l) as [s2' l2']. simpl in *.
  by subst.
Qed.

Lemma prepare_body_inv_rel (w : world) (s' : world * list bool) r :
  same_but_cache w (fst s') /\ prep_inv w /\ prep_inv (fst s') ->
  (same_but_cache (fst (__damon_pa_prepare_access_check w r))
                  (fst (fst (prepare_body_inv s' r))) /\
   prep_inv (fst (__damon_pa_prepare_access_check w r)) /\
   prep_inv (fst (fst (prepare_body_inv s' r)))) /\
  snd (__damon_pa_prepare_access_check w r) = snd (prepare_body_inv s' r).
Proof.
  destruct s' as [w' sched]. cbn [fst]. intros (Hsame & Hi & Hi').
  set (wi := invalidate_if (hd false sched) w').
  assert (same_but_cache w wi) as Hsi by by apply same_but_cache_invalidate_if.
  assert (prep_inv wi) as Hii by by apply prep_inv_invalidate_if.
  destruct (prepare_normal w r Hi) as (Hr & Hm & Hg & Hp & Hpos & Hinv).
  destruct (prepare_normal wi r Hii) as (Hr' & Hm' & Hg' & Hp' & Hpos' & Hinv').
  destruct Hsi as (Sg & Sm & Sp & Spos).
  assert (draw_sample wi r = (fst (draw_sample wi r), snd (draw_sample w r)))
    as Hd.
  { unfold draw_sample, damon_rand. cbn [fst snd]. by rewrite Sp, Spos. }
  rewrite Hd in Hr', Hm'. cbn [snd] in Hr', Hm'.
  unfold prepare_body_inv. fold wi.
  destruct (__damon_pa_prepare_access_check wi r) as [w1' r1']. cbn [fst snd] in *.
  split; [|congruence]. split; [|done].
  unfold same_but_cache. rewrite Hm, Hm', Hg, Hg', Hp, Hp', Hpos, Hpos'.
  by rewrite Sg, Sm, Sp, Spos.
Qed.

Lemma check_body_inv_rel (s : world * Z) (s' : world * Z * list bool) r :
  same_but_cache (fst s) (fst (fst s')) /\ check_inv (fst s) /\
  check_inv (fst (fst s')) /\ huge_consistent (mm (fst s)) /\
  snd (fst s') = snd s ->
  (same_but_cache (fst (fst (check_accesses_body s r)))
                  (fst (fst (fst (check_body_inv s' r)))) /\
   check_inv (fst (fst (check_accesses_body s r))) /\
   check_inv (fst (fst (fst (check_body_inv s' r)))) /\
   huge_consistent (mm (fst (fst (check_accesses_body s r)))) /\
   snd (fst (fst (check_body_inv s' r)))
   = snd (fst (check_accesses_body s r))) /\
  snd (check_accesses_body s r) = snd (check_body_inv s' r).
Proof.
  destruct s as [w mx], s' as [[w' mx'] sched]. cbn [fst snd].
  intros (Hsame & Hi & Hi' & Hh & ->).
  set (wi := invalidate_if (hd false sched) w').
  assert (same_but_cache w wi) as Hsi by by apply same_but_cache_invalidate_if.
  assert (check_inv wi) as Hii by by apply check_inv_invalidate_if.
  destruct Hsi as (Sg & Sm & Sp & Spos).
  assert (huge_consistent (mm wi)) as Hh' by by rewrite Sm.
  destruct (check_normal w r Hi Hh) as (Hr & Hm & Hg & Hp & Hpos & Hinv).
  destruct (check_normal wi r Hii Hh') as (Hr' & Hm' & Hg' & Hp' & Hpos' & Hinv').
  rewrite Sm in Hr'.
  unfold check_body_inv, check_accesses_body. fold wi.
  destruct (__damon_pa_check_access w r) as [w1 r1].
  destruct (__damon_pa_check_access wi r) as [w1' r1']. cbn [fst snd] in *.
  assert (r1' = r1) as -> by congruence.
  split; [|done].
  split; [unfold same_but_cache; repeat split; congruence|].
  split; [done|]. split; [done|]. split; [by rewrite Hm|done].
Qed.

(** C5, as amended.  Take a round that starts in a state in which no slot
    carries the generation the round uses; let the rest of the kernel
    change the page subsystem between the two phases only ([touch]), not
    between two region visits of one phase; and let the hot test answer
    for the base frame of a huge unit as for any frame it reports as part
    of the unit.  Run the prepare phase, apply [touch], run the check
    phase.  Wiping the table before any of the region visits of either
    phase changes neither the sample addresses, nor the page subsystem, nor
    the counters, nor the value returned. *)
Theorem cache_is_transparent (w : world) (ctx : damon_ctx)
    (sched1 sched2 : list bool) (touch : gmap Z page -> gmap Z page) :
  fresh w ->
  huge_consistent (touch (mm (fst (damon_pa_prepare_access_checks w ctx)))) ->
  let '(w1, ctx1) := damon_pa_prepare_access_checks w ctx in
  let '(w1', ctx1') := prepare_access_checks_inv sched1 w ctx in
  let '(w2, ctx2, ret) :=
    damon_pa_check_accesses (set_mm w1 (touch (mm w1))) ctx1 in
  let '(w2', ctx2', ret') :=
    check_accesses_inv sched2 (set_mm w1' (touch (mm w1'))) ctx1' in
  ctx1' = ctx1 /\ mm w1' = mm w1 /\
  ctx2' = ctx2 /\ ret' = ret /\ mm w2' = mm w2.
Proof.
  intros Hf Hh.
  unfold damon_pa_prepare_access_checks, prepare_access_checks_inv in *.
  pose proof (prep_inv_round_begin w Hf) as H0.
  destruct (for_each_rel
    (fun (w : world) (s' : world * list bool) =>
       same_but_cache w (fst s') /\ prep_inv w /\ prep_inv (fst s'))
    (for_each __damon_pa_prepare_access_check)
    (for_each prepare_body_inv)
    (fun s s' t HR => for_each_rel _ _ _ prepare_body_inv_rel t s s' HR)
    ctx (damon_pa_cache_round_begin w)
    (damon_pa_cache_round_begin w, sched1))
    as [(Hsame & Hi & Hi') Hctx]; [done|].
  destruct (for_each (for_each __damon_pa_prepare_access_check) _ ctx)
    as [w1 ctx1].
  destruct (for_each (for_each prepare_body_inv) _ ctx)
    as [[w1' sched] ctx1']. cbn [fst snd] in *. subst ctx1'.
  destruct Hsame as (Sg & Sm & Sp & Spos). rewrite Sm.
  unfold damon_pa_check_accesses, check_accesses_inv.
  destruct (for_each_rel
    (fun (s : world * Z) (s' : world * Z * list bool) =>
       same_but_cache (fst s) (fst (fst s')) /\ check_inv (fst s) /\
       check_inv (fst (fst s')) /\ huge_consistent (mm (fst s)) /\
       snd (fst s') = snd s)
    (for_each check_accesses_body)
    (for_each check_body_inv)
    (fun s s' t HR => for_each_rel _ _ _ check_body_inv_rel t s s' HR)
    ctx1 (set_mm w1 (touch (mm w1)), 0)
    (set_mm w1' (touch (mm w1)), 0, sched2))
    as [(Hsame & _ & _ & _ & Hret) Hctx].
  { cbn [fst snd]. repeat split; try done;
      by apply prep_inv_check_inv. }
  destruct (for_each (for_each check_accesses_body) _ ctx1)
    as [[w2 ret] ctx2].
  destruct (for_each (for_each check_body_inv) _ ctx1)
    as [[[w2' ret'] sched'] ctx2']. cbn [fst snd] in *.
  destruct Hsame as (_ & Sm2 & _). done.
Qed.

Lemma mm_unit_huge_consistent : huge_consistent mm_unit.
Proof.
  intros F a S Hy HS.
  destruct (decide (F = 512)) as [->|H512].
  { vm_compute in Hy. injection Hy as <- <-. vm_compute. reflexivity. }
  destruct (decide (F = 513)) as [->|H513].
  { vm_compute in Hy. injection Hy as <- <-. vm_compute. reflexivity. }
  unfold damon_pa_young_mm, mm_unit in Hy.
  rewrite lookup_insert_ne, lookup_singleton_ne in Hy by done.
  injection Hy as <- <-. lia.
Qed.

(** Witness of [cache_is_transparent]: the first round after boot on three
    regions that sample the frames 513, 512 and 513 of one huge unit, the
    unit being touched again between the phases; the table is wiped before
    the second visit of the prepare phase and before the third of the check
    phase. *)
Lemma cache_is_transparent_witness :
  let '(w1, ctx1) :=
    damon_pa_prepare_access_checks (boot mm_unit no_draws) ctx_unit in
  let '(w1', ctx1') :=
    prepare_access_checks_inv [false; true; false] (boot mm_unit no_draws)
                              ctx_unit in
  let '(w2, ctx2, ret) :=
    damon_pa_check_accesses (set_mm w1 mm_unit) ctx1 in
  let '(w2', ctx2', ret') :=
    check_accesses_inv [false; false; true] (set_mm w1' mm_unit) ctx1' in
  ctx1' = ctx1 /\ mm w1' = mm w1 /\
  ctx2' = ctx2 /\ ret' = ret /\ mm w2' = mm w2.
Proof.
  assert (fresh (boot mm_unit no_draws)) as Hf.
  { unfold fresh. apply (bool_decide_unpack _). vm_compute. exact I. }
  exact (cache_is_transparent (boot mm_unit no_draws) ctx_unit
           [false; true; false] [false; false; true] (fun _ => mm_unit)
           Hf mm_unit_huge_consistent).
Defined.

(** C5, counterexample.  Each proviso of the amended claim is needed: in
    each of the four runs below, wiping the table changes the counters.

    (a) The state [w_before_wrap_hot] is reached from boot; its generation
    is [ULONG_MAX] and slot 97 still carries the entry that the first round
    wrote for frame 1.  The round that starts now wraps the generation to
    1.  With the table as it is, the prepare phase finds that entry live
    and does not mark frame 1 cold, and the check phase then finds the
    frame accessed.  With the table wiped before the visit, the frame is
    marked cold and found not accessed.

    (b) Two regions sample frame 1 and the frame is accessed between their
    visits of the prepare phase.  With the table as it is, the second visit
    finds the entry of the first and does not mark the frame cold again;
    the check phase counts the access for both regions.  With the table
    wiped before the second visit, the frame is marked cold again and no
    access is counted.

    (c) The probe window of frame 1 is full after the prepare phase, so the
    first visit of the check phase writes its result over the entry of the
    prepare phase; the frame is then found not accessed any more.  With the
    table as it is, the second visit reuses the result of the first; with
    the table wiped before the second visit, it tests the frame again and
    counts nothing.

    (d) The hot test reports frame 513 accessed and part of a huge unit,
    and frame 512, the base frame of that unit, not accessed.  With the
    table as it is, the entry the prepare phase wrote for frame 512 hides
    the one written for the base frame, and frame 512 is tested and found
    not accessed.  With the table wiped before the first visit of the check
    phase, the entry written for the base frame is found and the access of
    frame 513 is counted for the region on frame 512 as well. *)
Lemma wiping_changes_counters :
  (reachable w_before_wrap_hot /\
   map nr_accesses
       (concat (snd (fst (round_with_cache w_before_wrap_hot [[one_page 1]]))))
   = [1] /\
   snd (round_with_cache w_before_wrap_hot [[one_page 1]]) = 1 /\
   map nr_accesses
       (concat (snd (fst (round_wiped_first w_before_wrap_hot [[one_page 1]]))))
   = [0] /\
   snd (round_wiped_first w_before_wrap_hot [[one_page 1]]) = 0) /\
  (map nr_accesses (concat (snd (fst (round_touched_in_prepare false))))
   = [1; 1] /\
   snd (round_touched_in_prepare false) = 1 /\
   map nr_accesses (concat (snd (fst (round_touched_in_prepare true))))
   = [0; 0] /\
   snd (round_touched_in_prepare true) = 0) /\
  (map nr_accesses (snd (fst (round_touched_in_check false)))
   = [1; 1; 0; 0; 0] /\
   map nr_accesses (snd (fst (round_touched_in_check true)))
   = [1; 0; 0; 0; 0]) /\
  (fresh (boot mm_split_unit no_draws) /\
   ~ huge_consistent mm_split_unit /\
   map nr_accesses
       (concat (snd (fst (damon_pa_check_accesses
                            (fst split_unit_prepared)
                            (snd split_unit_prepared)))))
   = [1; 0] /\
   map nr_accesses
       (concat (snd (fst (check_accesses_inv [true]
                            (fst split_unit_prepared)
                            (snd split_unit_prepared)))))
   = [1; 1]).
Proof.
  split; [|split; [|split]].
  - split.
    + apply reach_mm, reachable_iter_round_begin,
        reachable_prepare_access_checks, reach_boot.
    + unfold w_before_wrap_hot, w_before_wrap.
      rewrite iter_round_begin by (vm_compute; done).
      vm_compute. done.
  - vm_compute. done.
  - vm_compute. done.
  - split; [|split].
    + unfold fresh. apply (bool_decide_unpack _). vm_compute. exact I.
    + intros Hh.
      specialize (Hh 513 true (Z.shiftl 1 HPAGE_PMD_SHIFT)).
      vm_compute in Hh. by specialize (Hh eq_refl eq_refl).
    + vm_compute. done.
Qed.

(** * Further properties of the code *)

(** ** The table: bounds, claim policy, insert and lookup *)

(** [find] returns the first element that passes the test. *)
Lemma find_first {A : Type} (f : A -> bool) (l : list A) (x : A) :
  find f l = Some x ->
  exists l1 l2, l = l1 ++ x :: l2 /\ f x = true /\
                Forall (fun y => f y = false) l1.
Proof.
  induction l as [|y l IH]; simpl; [done|].
  destruct (f y) eqn:Hy.
  - intros [= ->]. exists [], l. by repeat split.
  - intros Hf. destruct (IH Hf) as (l1 & l2 & -> & Hx & Hl1).
    exists (y :: l1), l2. repeat split; [done|]. by constructor.
Qed.

Lemma find_at_first {A : Type} (f : A -> bool) (l1 l2 : list A) (x : A) :
  Forall (fun y => f y = false) l1 -> f x = true ->
  find f (l1 ++ x :: l2) = Some x.
Proof.
  induction 1 as [|y l1 Hy _ IH]; intros Hx; simpl.
  - by rewrite Hx.
  - rewrite Hy. by apply IH.
Qed.

Lemma slot_mod idx i : slot idx i = Z.to_nat ((idx + i) mod 256).
Proof.
  unfold slot. change (DAMON_PA_CACHE_SIZE - 1) with (Z.ones 8).
  by rewrite Z.land_ones by lia.
Qed.

Lemma slot_inj idx i j :
  0 <= i < 4 -> 0 <= j < 4 -> slot idx i = slot idx j -> i = j.
Proof.
  intros Hi Hj. rewrite !slot_mod. intros H.
  pose proof (Z.mod_pos_bound (idx + i) 256 ltac:(lia)).
  pose proof (Z.mod_pos_bound (idx + j) 256 ltac:(lia)).
  apply Z2Nat.inj in H; [|lia|lia].
  pose proof (Z.div_mod (idx + i) 256 ltac:(lia)).
  pose proof (Z.div_mod (idx + j) 256 ltac:(lia)).
  lia.
Qed.

Lemma probe_window_NoDup pfn : NoDup (probe_window pfn).
Proof.
  rewrite probe_window_unfold. cbn zeta.
  set (idx := hash_long pfn DAMON_PA_CACHE_BITS).
  repeat constructor; rewrite ?list_elem_of_In; simpl;
    intros H; decompose [or] H; try done;
    match goal with
    | E : slot idx ?i = slot idx ?j |- _ =>
        apply slot_inj in E; lia
    end.
Qed.

(** X1.  In every state reached from boot the table has its 256 slots,
    the probe window of a frame consists of four different slots, and every
    slot the lookup returns or a claim hands out is a slot of the table:
    no access runs out of the array. *)
Theorem cache_accesses_in_bounds (w : world) (pfn : Z) :
  reachable w ->
  length (damon_pa_cache w) = 256%nat /\
  length (probe_window pfn) = 4%nat /\
  NoDup (probe_window pfn) /\
  Forall (fun s => (s < length (damon_pa_cache w))%nat) (probe_window pfn) /\
  (damon_pa_cache_get_slot w pfn < length (damon_pa_cache w))%nat /\
  (forall s, damon_pa_cache_lookup w pfn = Some s ->
             (s < length (damon_pa_cache w))%nat).
Proof.
  intros Hr. pose proof (reachable_cache_sized w Hr) as Hs.
  unfold cache_sized in Hs. split; [by rewrite Hs|].
  split; [done|]. split; [apply probe_window_NoDup|].
  split; [|split].
  - apply Forall_forall. intros s Hin. rewrite Hs.
    apply (probe_window_lt pfn). by apply list_elem_of_In.
  - rewrite Hs. apply get_slot_lt.
  - intros s Hl. rewrite Hs. apply lookup_Some in Hl as [Hin _].
    by apply probe_window_lt in Hin.
Qed.

(** Witness of [cache_accesses_in_bounds]: the state after the first
    prepared round, frame 1. *)
Lemma cache_accesses_in_bounds_witness :
  (damon_pa_cache_get_slot w_round1 1 < length (damon_pa_cache w_round1))%nat.
Proof.
  assert (reachable w_round1) as Hr.
  { apply reachable_prepare_access_checks, reach_boot. }
  exact (proj1 (proj2 (proj2 (proj2 (proj2
           (cache_accesses_in_bounds w_round1 1 Hr)))))).
Defined.

(** X2.  The claim policy.  When some slot of the probe window is stale,
    [damon_pa_cache_get_slot] returns the first stale slot of the window and
    so overwrites no live entry; when all four are live it returns the first
    slot of the window. *)
Theorem get_slot_policy (w : world) (pfn : Z) :
  let s := damon_pa_cache_get_slot w pfn in
  (Exists (fun x => slot_live w x = false) (probe_window pfn) ->
   slot_live w s = false /\
   exists l1 l2, probe_window pfn = l1 ++ s :: l2 /\
                 Forall (fun x => slot_live w x = true) l1) /\
  (Forall (fun x => slot_live w x = true) (probe_window pfn) ->
   s = slot (hash_long pfn DAMON_PA_CACHE_BITS) 0 /\
   exists l2, probe_window pfn = s :: l2).
Proof.
  unfold damon_pa_cache_get_slot, slot_live. cbn zeta.
  destruct (find _ (probe_window pfn)) as [s|] eqn:Hf.
  - apply find_first in Hf as (l1 & l2 & Hw & Hs & Hl1). split.
    + intros _. split; [by apply negb_true_iff|].
      exists l1, l2. split; [done|].
      eapply Forall_impl; [exact Hl1|]. intros x Hx. simpl in Hx.
      by apply negb_false_iff.
    + intros Hall. rewrite Forall_forall in Hall.
      assert (s ∈ probe_window pfn) as Hin.
      { rewrite Hw. apply list_elem_of_In, in_app_iff. right. by left. }
      specialize (Hall s Hin). apply negb_true_iff in Hs. congruence.
  - split.
    + intros Hex. apply Exists_exists in Hex as (x & Hin & Hx).
      apply list_elem_of_In in Hin.
      pose proof (find_none _ _ Hf x Hin) as Hn. simpl in Hn.
      apply negb_false_iff in Hn. congruence.
    + intros _. unfold slot. rewrite Z.add_0_r. split; [done|].
      rewrite probe_window_unfold. cbn zeta. unfold slot at 1.
      rewrite Z.add_0_r. by eexists.
Qed.

(** Witness of [get_slot_policy]: at boot every slot is stale once a round
    has begun, and the claim for frame 1 takes the head of its window. *)
Lemma get_slot_policy_witness :
  slot_live w_begun (damon_pa_cache_get_slot w_begun 1) = false.
Proof.
  refine (proj1 (proj1 (get_slot_policy w_begun 1) _)).
  apply (bool_decide_unpack _). vm_compute. exact I.
Defined.

(** The test of [damon_pa_cache_lookup] at one slot. *)
Lemma lookup_find w F :
  damon_pa_cache_lookup w F =
  find (fun s => live w (damon_pa_cache w !!! s)
                 && (ent_pfn (damon_pa_cache w !!! s) =? F))
       (probe_window F).
Proof. reflexivity. Qed.

Lemma fill_other_match w t G sz a F x :
  G <> F ->
  let w' := cache_fill w t G sz a in
  (live w' (damon_pa_cache w' !!! x)
   && (ent_pfn (damon_pa_cache w' !!! x) =? F) = true ->
   live w (damon_pa_cache w !!! x)
   && (ent_pfn (damon_pa_cache w !!! x) =? F) = true) /\
  (x <> t ->
   live w' (damon_pa_cache w' !!! x)
   && (ent_pfn (damon_pa_cache w' !!! x) =? F)
   = live w (damon_pa_cache w !!! x)
     && (ent_pfn (damon_pa_cache w !!! x) =? F)).
Proof.
  intros HG w'. unfold w', cache_fill, live. simpl.
  rewrite list_lookup_total_insert. split.
  - case_decide; [|done]. simpl. intros Hm.
    apply andb_true_iff in Hm as [_ Hm]. lia.
  - intros Hx. case_decide as Hd; [|done]. destruct Hd as [-> _]. done.
Qed.

(** X3.  Insert, then look up.  When the lookup of frame [F] finds
    nothing, then after a slot has been claimed and written for [F] the
    lookup of [F] returns that very slot, and the slot holds what was
    written, stamped with the current generation. *)
Theorem claim_then_lookup (w : world) (F sz : Z) (a : bool) :
  cache_sized w ->
  damon_pa_cache_lookup w F = None ->
  let w' := cache_claim_fill w (F, sz, a) in
  damon_pa_cache_lookup w' F = Some (damon_pa_cache_get_slot w F) /\
  damon_pa_cache w' !!! damon_pa_cache_get_slot w F
  = {| ent_gen := damon_pa_cache_gen w; ent_pfn := F; ent_page_sz := sz;
       ent_accessed := a; ent_mkold_done := true |}.
Proof.
  intros Hs Hnone w'.
  assert (damon_pa_cache w' !!! damon_pa_cache_get_slot w F
          = {| ent_gen := damon_pa_cache_gen w; ent_pfn := F;
               ent_page_sz := sz; ent_accessed := a;
               ent_mkold_done := true |}) as Hread.
  { unfold w', cache_claim_fill, cache_fill. simpl.
    apply list_lookup_total_insert_eq. rewrite Hs. apply get_slot_lt. }
  split; [|done].
  destruct (damon_pa_cache_lookup w' F) as [x|] eqn:Hx;
    [|by destruct (lookup_claim_fill w F sz a Hs)].
  f_equal. destruct (decide (x = damon_pa_cache_get_slot w F)) as [|Hne];
    [done|exfalso].
  apply lookup_Some in Hx as (Hin & Hg & Hp).
  rewrite lookup_None in Hnone. apply (Hnone x Hin).
  unfold w', cache_claim_fill, cache_fill in Hg, Hp. simpl in Hg, Hp.
  by rewrite list_lookup_total_insert_ne in Hg, Hp by done.
Qed.

(** Witness of [claim_then_lookup]: frame 7 at the start of the first
    round. *)
Lemma claim_then_lookup_witness :
  damon_pa_cache_lookup (cache_claim_fill w_begun (7, 4096, true)) 7
  = Some (damon_pa_cache_get_slot w_begun 7).
Proof.
  refine (proj1 (claim_then_lookup w_begun 7 4096 true _ _)).
  - vm_compute. reflexivity.
  - vm_compute. reflexivity.
Defined.

Lemma claim_other_keeps_lookup w F G sz a :
  G <> F ->
  (forall s, damon_pa_cache_lookup w F = Some s ->
             damon_pa_cache_get_slot w G <> s) ->
  damon_pa_cache_lookup (cache_claim_fill w (G, sz, a)) F
  = damon_pa_cache_lookup w F.
Proof.
  intros HG Hslot. unfold cache_claim_fill.
  set (t := damon_pa_cache_get_slot w G) in *.
  destruct (damon_pa_cache_lookup w F) as [s|] eqn:Hl.
  - rewrite lookup_find in Hl.
    apply find_first in Hl as (l1 & l2 & Hw & Hs & Hl1).
    rewrite lookup_find, Hw. apply find_at_first.
    + eapply Forall_impl; [exact Hl1|]. intros x Hx. cbn beta in *.
      destruct (fill_other_match w t G sz a F x HG) as [Hm _].
      apply not_true_is_false. intros Hc. rewrite (Hm Hc) in Hx. done.
    + destruct (fill_other_match w t G sz a F s HG) as [_ Hm].
      rewrite Hm; [done|]. intros ->. by apply (Hslot t).
  - apply lookup_None. intros x Hin [H1 H2].
    rewrite lookup_None in Hl. apply (Hl x Hin).
    destruct (fill_other_match w t G sz a F x HG) as [Hm _].
    assert (live w (damon_pa_cache w !!! x)
            && (ent_pfn (damon_pa_cache w !!! x) =? F) = true) as Hold.
    { apply Hm. apply andb_true_iff. unfold live. split; lia. }
    apply andb_true_iff in Hold as [Ha Hb]. unfold live in Ha. split; lia.
Qed.

(** X4.  A claim for one frame and the lookups of the others.  Claiming
    and writing a slot for frame [G] leaves the lookup of every other frame
    [F] as it was, unless the claim takes the very slot the lookup of [F]
    returns; and that cannot be while the probe window of [G] has a stale
    slot.  An entry is evicted only by a claim whose window is full. *)
Theorem claim_keeps_other_lookups (w : world) (F G sz : Z) (a : bool) :
  G <> F ->
  ((forall s, damon_pa_cache_lookup w F = Some s ->
              damon_pa_cache_get_slot w G <> s) ->
   damon_pa_cache_lookup (cache_claim_fill w (G, sz, a)) F
   = damon_pa_cache_lookup w F) /\
  (Exists (fun x => slot_live w x = false) (probe_window G) ->
   damon_pa_cache_lookup (cache_claim_fill w (G, sz, a)) F
   = damon_pa_cache_lookup w F).
Proof.
  intros HG. split; [by apply claim_other_keeps_lookup|].
  intros Hex. apply claim_other_keeps_lookup; [done|].
  intros s Hl Heq. apply lookup_Some in Hl as (_ & Hg & _).
  unfold damon_pa_cache_get_slot in Heq.
  destruct (find _ (probe_window G)) as [t|] eqn:Hf.
  - apply find_some in Hf as [_ Hst]. simpl in Hst. subst t.
    apply negb_true_iff in Hst. unfold live in Hst. lia.
  - apply Exists_exists in Hex as (x & Hin & Hx).
    apply list_elem_of_In in Hin.
    pose proof (find_none _ _ Hf x Hin) as Hn. simpl in Hn.
    apply negb_false_iff in Hn. unfold slot_live in Hx. congruence.
Qed.

(** Witness of [claim_keeps_other_lookups]: in the state after the first
    prepared round, a claim for frame 234, which hashes to the bucket of
    frame 1, leaves the lookup of frame 1 alone. *)
Lemma claim_keeps_other_lookups_witness :
  damon_pa_cache_lookup (cache_claim_fill w_round1 (234, 0, false)) 1
  = damon_pa_cache_lookup w_round1 1.
Proof.
  refine (proj2 (claim_keeps_other_lookups w_round1 1 234 0 false _) _).
  - discriminate.
  - apply (bool_decide_unpack _). vm_compute. exact I.
Defined.

(** ** The generation before it wraps *)

Lemma stamps_ordered_claim_fill w x :
  stamps_ordered w -> stamps_ordered (cache_claim_fill w x).
Proof.
  destruct x as [[G sz] a]. intros [Hg Hf]. split; [done|].
  unfold cache_claim_fill, cache_fill. simpl.
  apply Forall_insert; [done|]. simpl. lia.
Qed.

Lemma stamps_ordered_ext w w' :
  damon_pa_cache w' = damon_pa_cache w ->
  damon_pa_cache_gen w' = damon_pa_cache_gen w ->
  stamps_ordered w -> stamps_ordered w'.
Proof. unfold stamps_ordered. by intros -> ->. Qed.

(** X5.  Stamps and generation.  At boot every stamp is between 0 and the
    generation, and the engine keeps it so: a visit of either phase writes
    the current generation only, and a round start below [ULONG_MAX] moves
    the generation up by one.  In such a state below [ULONG_MAX] no slot
    carries the next generation: the round that starts finds the table
    logically empty. *)
Theorem stamps_stay_ordered (w : world) :
  stamps_ordered w ->
  (forall m rnd, stamps_ordered (boot m rnd)) /\
  (damon_pa_cache_gen w < ULONG_MAX ->
   fresh w /\
   damon_pa_cache_gen (damon_pa_cache_round_begin w)
   = damon_pa_cache_gen w + 1 /\
   stamps_ordered (damon_pa_cache_round_begin w)) /\
  (forall r, stamps_ordered (fst (__damon_pa_prepare_access_check w r)) /\
             stamps_ordered (fst (__damon_pa_check_access w r))) /\
  (forall m, stamps_ordered (set_mm w m)).
Proof.
  intros Ho. split; [|split; [|split]].
  - intros m rnd. split; [done|]. unfold boot. cbn [damon_pa_cache].
    by apply Forall_replicate.
  - destruct Ho as [Hg Hf]. unfold ULONG_MAX.
    change (2 ^ BITS_PER_LONG) with (2 ^ 64). intros Hlt.
    assert (damon_pa_cache_gen (damon_pa_cache_round_begin w)
            = damon_pa_cache_gen w + 1) as Hnext.
    { unfold damon_pa_cache_round_begin, ulong. simpl.
      change (2 ^ BITS_PER_LONG) with (2 ^ 64).
      rewrite Z.mod_small by lia. destruct (_ =? 0) eqn:E; lia. }
    split; [|split; [done|split]].
    + unfold fresh. rewrite Hnext. eapply Forall_impl; [exact Hf|].
      simpl. lia.
    + lia.
    + rewrite Hnext. cbn [damon_pa_cache damon_pa_cache_round_begin set_gen].
      eapply Forall_impl; [exact Hf|]. simpl. lia.
  - intros r. split.
    + apply (prepare_preserves stamps_ordered); [|apply stamps_ordered_claim_fill|done].
      intros ????. by apply stamps_ordered_ext.
    + apply (check_preserves stamps_ordered); [|apply stamps_ordered_claim_fill|done].
      intros ????. by apply stamps_ordered_ext.
  - done.
Qed.

(** Witness of [stamps_stay_ordered]: the state after the first prepared
    round. *)
Lemma stamps_stay_ordered_witness : fresh w_round1.
Proof.
  assert (stamps_ordered w_round1) as Ho.
  { split; [by vm_compute|]. apply (bool_decide_unpack _). vm_compute.
    exact I. }
  refine (proj1 (proj1 (proj2 (stamps_stay_ordered w_round1 Ho)) _)).
  vm_compute. reflexivity.
Defined.

(** ** The hot test and the mark-cold operation *)

Lemma young_walk_accessed p vma : forall r,
  res_accessed r = false ->
  res_accessed (young_walk p vma r) = existsb (hit_hot p) vma.
Proof.
  induction vma as [|h vma IH]; intros r Hr; simpl; [done|].
  fold (hit_hot p h).
  destruct (hit_pte h); simpl; destruct (hit_hot p h) eqn:Hh; simpl;
    try done; by apply IH.
Qed.

Lemma young_walk_size p vma : forall r,
  res_page_sz (young_walk p vma r) = res_page_sz r \/
  (res_page_sz (young_walk p vma r) = Z.shiftl 1 HPAGE_PMD_SHIFT /\
   existsb (fun h => negb (hit_pte h)) vma = true).
Proof.
  induction vma as [|h vma IH]; intros r; simpl; [by left|].
  fold (hit_hot p h).
  destruct (hit_pte h) eqn:Hp; simpl; destruct (hit_hot p h); simpl.
  - by left.
  - destruct (IH {| res_page_sz := res_page_sz r; res_accessed := false |})
      as [H|[H1 H2]]; [by left|by right].
  - right. done.
  - right. split; [|done].
    destruct (IH {| res_page_sz := Z.shiftl 1 HPAGE_PMD_SHIFT;
                    res_accessed := false |}) as [H|[H1 H2]]; done.
Qed.

Lemma rmap_walk_young_accessed p vmas : forall r,
  res_accessed r = false ->
  res_accessed (rmap_walk_young p vmas r)
  = existsb (hit_hot p) (concat vmas).
Proof.
  induction vmas as [|vma vmas IH]; intros r Hr; simpl; [done|].
  unfold __damon_pa_young. rewrite existsb_app.
  rewrite <- (young_walk_accessed p vma
                {| res_page_sz := PAGE_SIZE; res_accessed := false |}) by done.
  destruct (res_accessed (young_walk p vma _)) eqn:Ha; simpl; [done|].
  by apply IH.
Qed.

Lemma rmap_walk_young_size p vmas : forall r,
  res_page_sz (rmap_walk_young p vmas r) = res_page_sz r \/
  res_page_sz (rmap_walk_young p vmas r) = PAGE_SIZE \/
  (res_page_sz (rmap_walk_young p vmas r) = Z.shiftl 1 HPAGE_PMD_SHIFT /\
   existsb (fun h => negb (hit_pte h)) (concat vmas) = true).
Proof.
  induction vmas as [|vma vmas IH]; intros r; simpl; [by left|].
  unfold __damon_pa_young. rewrite existsb_app. right.
  pose proof (young_walk_size p vma
                {| res_page_sz := PAGE_SIZE; res_accessed := false |}) as Hs.
  simpl in Hs.
  destruct (negb (res_accessed (young_walk p vma _))).
  - destruct (IH (young_walk p vma
                    {| res_page_sz := PAGE_SIZE; res_accessed := false |}))
      as [H|[H|[H1 H2]]].
    + rewrite H. destruct Hs as [Hs|[Hs1 Hs2]]; [by left|right].
      by rewrite Hs2.
    + by left.
    + right. split; [done|]. rewrite H2. apply orb_true_r.
  - destruct Hs as [Hs|[Hs1 Hs2]]; [by left|right]. by rewrite Hs2.
Qed.

Lemma young_mm_page m pfn sz :
  damon_pa_young_mm m pfn sz =
  match m !! pfn with
  | None => (false, sz)
  | Some p =>
      if negb (page_mapped p) || negb (page_rmapping p)
      then (negb (page_is_idle p), PAGE_SIZE)
      else if (negb (PageAnon p) || PageKsm p) && negb (page_trylock p)
           then (false, PAGE_SIZE)
           else
             let result :=
               rmap_walk_young p (page_rmap p)
                 {| res_page_sz := PAGE_SIZE; res_accessed := false |} in
             (res_accessed result, res_page_sz result)
  end.
Proof.
  unfold damon_pa_young_mm. destruct (m !! pfn) as [p|]; [|done].
  destruct (negb (page_mapped p) || negb (page_rmapping p)); [|done].
  by destruct (page_is_idle p).
Qed.

(** X6.  The hot test in closed form.  [damon_pa_young] reports a frame
    accessed exactly when [young_spec] says so: never for a frame without a
    page or for a page whose lock is contended, by the idle flag for a page
    without mappings, and otherwise when some mapping of the page is young,
    or is reported young by the notifiers, or the page is not idle.  The
    size it reports is the base page size or the PMD size, never the 0 that
    marks an unresolved entry, and the PMD size only for a page that has a
    PMD mapping. *)
Theorem hot_test_characterised (m : gmap Z page) (pfn : Z) :
  fst (damon_pa_young_mm m pfn PAGE_SIZE) = young_spec m pfn /\
  (snd (damon_pa_young_mm m pfn PAGE_SIZE) = PAGE_SIZE \/
   snd (damon_pa_young_mm m pfn PAGE_SIZE) = Z.shiftl 1 HPAGE_PMD_SHIFT /\
   exists p, m !! pfn = Some p /\
             existsb (fun h => negb (hit_pte h)) (concat (page_rmap p)) = true) /\
  snd (damon_pa_young_mm m pfn PAGE_SIZE) <> 0.
Proof.
  assert (fst (damon_pa_young_mm m pfn PAGE_SIZE) = young_spec m pfn /\
    (snd (damon_pa_young_mm m pfn PAGE_SIZE) = PAGE_SIZE \/
     snd (damon_pa_young_mm m pfn PAGE_SIZE) = Z.shiftl 1 HPAGE_PMD_SHIFT /\
     exists p, m !! pfn = Some p /\
       existsb (fun h => negb (hit_pte h)) (concat (page_rmap p)) = true))
    as [H1 H2].
  { rewrite young_mm_page. unfold young_spec, young_page_spec.
    destruct (m !! pfn) as [p|]; [|by split; [|left]].
    destruct (negb (page_mapped p) || negb (page_rmapping p));
      [by split; [|left]|].
    destruct ((negb (PageAnon p) || PageKsm p) && negb (page_trylock p));
      [by split; [|left]|].
    cbn zeta. cbn [fst snd]. split.
    - by apply rmap_walk_young_accessed.
    - destruct (rmap_walk_young_size p (page_rmap p)
                  {| res_page_sz := PAGE_SIZE; res_accessed := false |})
        as [H|[H|[Ha Hb]]]; [by left|by left|right].
      split; [done|]. by exists p. }
  split; [done|]. split; [done|].
  destruct H2 as [->|[-> _]]; done.
Qed.

Lemma young_mm_accessed m pfn sz :
  fst (damon_pa_young_mm m pfn sz) = young_spec m pfn.
Proof.
  rewrite young_mm_page. unfold young_spec, young_page_spec.
  destruct (m !! pfn) as [p|]; [|done].
  destruct (negb (page_mapped p) || negb (page_rmapping p)); [done|].
  destruct ((negb (PageAnon p) || PageKsm p) && negb (page_trylock p));
    [done|].
  cbn zeta. cbn [fst]. by apply rmap_walk_young_accessed.
Qed.

Lemma cleared_hits_hot q l :
  existsb (hit_hot q) (map clear_hit l)
  = negb (page_is_idle q) && match l with [] => false | _ => true end.
Proof.
  induction l as [|h l IH]; simpl; [by rewrite andb_false_r|].
  rewrite IH. unfold hit_hot at 1. simpl.
  rewrite orb_false_r, andb_true_r. by destruct (page_is_idle q), l.
Qed.

(** Right after it was marked cold a page is found cold. *)
Lemma young_page_after_mkold p :
  young_page_spec (damon_pa_mkold_page p) = false.
Proof.
  destruct (negb (page_mapped p) || negb (page_rmapping p)) eqn:Hun.
  { unfold damon_pa_mkold_page, young_page_spec. rewrite Hun. simpl.
    by rewrite Hun. }
  destruct ((negb (PageAnon p) || PageKsm p) && negb (page_trylock p))
    eqn:Hlock.
  { unfold damon_pa_mkold_page, young_page_spec. by rewrite Hun, Hlock, Hun, Hlock. }
  rewrite mkold_page_walk by done. unfold young_page_spec. simpl.
  rewrite Hun, Hlock. rewrite <- concat_map, cleared_hits_hot. simpl.
  destruct (concat (page_rmap p)); simpl;
    by rewrite ?orb_true_r, ?andb_false_r.
Qed.

(** X7.  How mark-cold calls compose.  Marking two frames cold in either
    order leaves the page subsystem in the same state, and marking the same
    frame a second time changes nothing.  The operation adds and removes no
    page, and touches neither the table nor the generation. *)
Theorem mkold_composes (w : world) (a b : Z) :
  mm (damon_pa_mkold (damon_pa_mkold w a) b)
  = mm (damon_pa_mkold (damon_pa_mkold w b) a) /\
  (PHYS_PFN a = PHYS_PFN b ->
   mm (damon_pa_mkold (damon_pa_mkold w a) b) = mm (damon_pa_mkold w a)) /\
  dom (mm (damon_pa_mkold w a)) = dom (mm w) /\
  damon_pa_cache (damon_pa_mkold w a) = damon_pa_cache w /\
  damon_pa_cache_gen (damon_pa_mkold w a) = damon_pa_cache_gen w.
Proof.
  unfold damon_pa_mkold. simpl. split; [apply mkold_mm_comm|].
  split; [intros <-; apply mkold_mm_idem|]. split; [|done].
  unfold damon_pa_mkold_mm. destruct (mm w !! PHYS_PFN a) eqn:Hp; [|done].
  apply dom_insert_lookup_L. by rewrite Hp.
Qed.

(** Witness of [mkold_composes]: two addresses of frame 1. *)
Lemma mkold_composes_witness :
  mm (damon_pa_mkold (damon_pa_mkold w_begun 4096) 4100)
  = mm (damon_pa_mkold w_begun 4096).
Proof.
  refine (proj1 (proj2 (mkold_composes w_begun 4096 4100)) _).
  reflexivity.
Defined.

(** X8.  Mark cold, then test.  Right after [damon_pa_mkold] ran on a
    frame, the hot test of that frame reports it not accessed, whatever the
    state of the page was; and the call does not change what the hot test
    reports for any other frame. *)
Theorem mkold_then_young (m : gmap Z page) (F G sz : Z) :
  fst (damon_pa_young_mm (damon_pa_mkold_mm m F) F sz) = false /\
  (G <> F ->
   damon_pa_young_mm (damon_pa_mkold_mm m G) F sz = damon_pa_young_mm m F sz).
Proof.
  split.
  - rewrite young_mm_accessed. unfold young_spec, damon_pa_mkold_mm.
    destruct (m !! F) as [p|] eqn:Hp.
    + rewrite lookup_insert_eq. apply young_page_after_mkold.
    + by rewrite Hp.
  - intros HG. unfold damon_pa_young_mm, damon_pa_mkold_mm.
    destruct (m !! G) as [q|]; [|done]. by rewrite lookup_insert_ne.
Qed.

(** Witness of [mkold_then_young]: frame 1 is young and is marked cold;
    frame 2 is another frame. *)
Lemma mkold_then_young_witness :
  damon_pa_young_mm (damon_pa_mkold_mm mm_frame1 2) 1 PAGE_SIZE
  = damon_pa_young_mm mm_frame1 1 PAGE_SIZE.
Proof.
  refine (proj2 (mkold_then_young mm_frame1 1 2 PAGE_SIZE) _).
  discriminate.
Defined.

(** ** What a phase touches and what it leaves alone *)

Lemma for_each_flat {S A : Type} (body : S -> A -> S * A)
    (ll : list (list A)) (s : S) :
  fst (for_each body s (concat ll)) = fst (for_each (for_each body) s ll) /\
  snd (for_each body s (concat ll))
  = concat (snd (for_each (for_each body) s ll)).
Proof.
  rewrite for_each_concat. by destruct (for_each (for_each body) s ll).
Qed.

Lemma for_each_cons {S A : Type} (body : S -> A -> S * A) s x l :
  fst (for_each body s (x :: l)) = fst (for_each body (fst (body s x)) l) /\
  snd (for_each body s (x :: l))
  = snd (body s x) :: snd (for_each body (fst (body s x)) l).
Proof.
  simpl. destruct (body s x) as [s1 x1]. simpl.
  by destruct (for_each body s1 l).
Qed.

(** One visit of the prepare phase: what it leaves alone. *)
Lemma prepare_visit_frame w r :
  let w1 := fst (__damon_pa_prepare_access_check w r) in
  let r1 := snd (__damon_pa_prepare_access_check w r) in
  ar_start r1 = ar_start r /\ ar_end r1 = ar_end r /\
  nr_accesses r1 = nr_accesses r /\
  prandom_pos w1 = S (prandom_pos w) /\
  damon_pa_cache_gen w1 = damon_pa_cache_gen w /\
  (trace w1 = trace w \/ trace w1 = trace w ++ [EvMkold (sampling_addr r1)]).
Proof.
  rewrite prepare_cases. unfold draw_sample, damon_rand. simpl.
  destruct (dedup_hit _ _); simpl; repeat split; auto.
Qed.

Lemma prepare_flat_frame rs : forall w,
  let p := for_each __damon_pa_prepare_access_check w rs in
  map ar_start (snd p) = map ar_start rs /\
  map ar_end (snd p) = map ar_end rs /\
  map nr_accesses (snd p) = map nr_accesses rs /\
  prandom_pos (fst p) = (prandom_pos w + length rs)%nat /\
  damon_pa_cache_gen (fst p) = damon_pa_cache_gen w /\
  exists t, trace (fst p) = trace w ++ t /\
            (length t <= length rs)%nat /\
            Forall (fun ev => exists r', In r' (snd p) /\
                                         ev = EvMkold (sampling_addr r')) t.
Proof.
  induction rs as [|r rs IH]; intros w.
  - simpl. split; [done|]. split; [done|]. split; [done|]. split; [lia|].
    split; [done|]. exists []. rewrite app_nil_r. by repeat split.
  - cbn zeta. destruct (for_each_cons __damon_pa_prepare_access_check w r rs)
      as [-> ->].
    destruct (prepare_visit_frame w r) as (H1 & H2 & H3 & H4 & H5 & H6).
    destruct (IH (fst (__damon_pa_prepare_access_check w r)))
      as (I1 & I2 & I3 & I4 & I5 & t & I6 & I7 & I8).
    cbn zeta in *. simpl.
    split; [congruence|]. split; [congruence|]. split; [congruence|].
    split; [lia|]. split; [congruence|].
    destruct H6 as [H6|H6].
    + exists t. rewrite I6, H6. split; [done|]. split; [lia|].
      eapply Forall_impl; [exact I8|]. intros ev (r' & Hin & ->).
      exists r'. split; [by right|done].
    + exists (EvMkold (sampling_addr
                (snd (__damon_pa_prepare_access_check w r))) :: t).
      rewrite I6, H6, <- app_assoc. split; [done|]. split; [simpl; lia|].
      constructor.
      * eexists. split; [by left|done].
      * eapply Forall_impl; [exact I8|]. intros ev (r' & Hin & ->).
        exists r'. split; [by right|done].
Qed.

(** X9.  What the prepare phase touches.  [damon_pa_prepare_access_checks]
    changes nothing of a region but its sample address: bounds and counters
    stay, and every target keeps its regions.  It draws exactly one random
    number per region, and all it calls is the mark-cold operation, at most
    once per region and only on sample addresses of the round. *)
Theorem prepare_touches_only_samples (w : world) (ctx : damon_ctx) :
  let '(w', ctx') := damon_pa_prepare_access_checks w ctx in
  map length ctx' = map length ctx /\
  map ar_start (concat ctx') = map ar_start (concat ctx) /\
  map ar_end (concat ctx') = map ar_end (concat ctx) /\
  map nr_accesses (concat ctx') = map nr_accesses (concat ctx) /\
  prandom_pos w' = (prandom_pos w + length (concat ctx))%nat /\
  exists t, trace w' = trace w ++ t /\
            (length t <= length (concat ctx))%nat /\
            Forall (fun ev => exists r', In r' (concat ctx') /\
                                         ev = EvMkold (sampling_addr r')) t.
Proof.
  unfold damon_pa_prepare_access_checks.
  pose proof (for_each_lengths __damon_pa_prepare_access_check ctx
                (damon_pa_cache_round_begin w)) as Hl.
  destruct (for_each_flat __damon_pa_prepare_access_check ctx
              (damon_pa_cache_round_begin w)) as [Hf Hs].
  pose proof (prepare_flat_frame (concat ctx) (damon_pa_cache_round_begin w))
    as Hp. cbn zeta in Hp. rewrite Hf, Hs in Hp.
  destruct (for_each (for_each __damon_pa_prepare_access_check) _ ctx)
    as [w' ctx']. simpl in *.
  destruct Hp as (H1 & H2 & H3 & H4 & _ & H6). by repeat split.
Qed.

(** One visit of the check phase: what it leaves alone. *)
Lemma check_visit_frame w r :
  let w1 := fst (__damon_pa_check_access w r) in
  let r1 := snd (__damon_pa_check_access w r) in
  ar_start r1 = ar_start r /\ ar_end r1 = ar_end r /\
  sampling_addr r1 = sampling_addr r /\
  (nr_accesses r1 = nr_accesses r \/
   nr_accesses r1 = uint (nr_accesses r + 1)) /\
  mm w1 = mm w /\
  damon_pa_cache_gen w1 = damon_pa_cache_gen w /\
  prandom_pos w1 = prandom_pos w /\
  (trace w1 = trace w \/ trace w1 = trace w ++ [EvYoung (sampling_addr r)]).
Proof.
  cbn zeta. rewrite check_region.
  assert (forall b : bool,
    let r1 := if b then inc_nr_accesses r else r in
    ar_start r1 = ar_start r /\ ar_end r1 = ar_end r /\
    sampling_addr r1 = sampling_addr r /\
    (nr_accesses r1 = nr_accesses r \/
     nr_accesses r1 = uint (nr_accesses r + 1))) as Hr.
  { intros []; simpl; auto. }
  destruct (Hr (found_accessed w r)) as (H1 & H2 & H3 & H4).
  split; [done|]. split; [done|]. split; [done|]. split; [done|].
  rewrite check_cases. destruct (resolved_hit _ _); simpl; [auto|].
  rewrite check_access_slow_world. simpl.
  destruct (damon_pa_young_mm _ _ _) as [a sz].
  unfold cache_claim_fill. destruct (_ <? _); simpl; auto.
Qed.

Lemma check_flat_frame rs : forall w,
  let p := for_each __damon_pa_check_access w rs in
  map ar_start (snd p) = map ar_start rs /\
  map ar_end (snd p) = map ar_end rs /\
  mm (fst p) = mm w /\
  damon_pa_cache_gen (fst p) = damon_pa_cache_gen w /\
  prandom_pos (fst p) = prandom_pos w /\
  (exists t, trace (fst p) = trace w ++ t /\
             (length t <= length rs)%nat /\
             Forall (fun ev => exists r, In r rs /\
                                         ev = EvYoung (sampling_addr r)) t) /\
  (Forall (fun r => 0 <= nr_accesses r < 2 ^ 32 - 1) rs ->
   Forall2 (fun r r' => nr_accesses r <= nr_accesses r' <= nr_accesses r + 1)
           rs (snd p)).
Proof.
  induction rs as [|r rs IH]; intros w.
  - simpl. split; [done|]. split; [done|]. split; [done|]. split; [done|].
    split; [done|]. split; [|by constructor].
    exists []. rewrite app_nil_r. by repeat split.
  - cbn zeta. destruct (for_each_cons __damon_pa_check_access w r rs)
      as [-> ->].
    destruct (check_visit_frame w r)
      as (H1 & H2 & H3 & H4 & H5 & H6 & H7 & H8).
    destruct (IH (fst (__damon_pa_check_access w r)))
      as (I1 & I2 & I3 & I4 & I5 & (t & I6 & I7 & I8) & I9).
    cbn zeta in *. simpl.
    split; [congruence|]. split; [congruence|]. split; [congruence|].
    split; [congruence|]. split; [congruence|]. split.
    + destruct H8 as [H8|H8].
      * exists t. rewrite I6, H8. split; [done|]. split; [lia|].
        eapply Forall_impl; [exact I8|]. intros ev (r' & Hin & ->).
        exists r'. split; [by right|done].
      * exists (EvYoung (sampling_addr r) :: t).
        rewrite I6, H8, <- app_assoc. split; [done|]. split; [simpl; lia|].
        constructor.
        -- eexists. split; [by left|done].
        -- eapply Forall_impl; [exact I8|]. intros ev (r' & Hin & ->).
           exists r'. split; [by right|done].
    + intros Hb. inversion Hb as [|? ? Hr Hrs]; subst. constructor.
      * destruct H4 as [->| ->]; [lia|]. unfold uint.
        rewrite Z.mod_small by lia. lia.
      * by apply I9.
Qed.

(** X10.  What the check phase touches.  [damon_pa_check_accesses] changes
    nothing of a region but its counter, and a counter below [UINT_MAX]
    stays or goes up by one: it is never decremented.  The phase leaves the
    page subsystem and the generation as they are, draws no random number,
    and all it calls is the hot test, at most once per region and only on
    sample addresses of the regions. *)
Theorem check_reads_only (w : world) (ctx : damon_ctx) :
  let '(w', ctx', ret) := damon_pa_check_accesses w ctx in
  map length ctx' = map length ctx /\
  map ar_start (concat ctx') = map ar_start (concat ctx) /\
  map ar_end (concat ctx') = map ar_end (concat ctx) /\
  mm w' = mm w /\
  damon_pa_cache_gen w' = damon_pa_cache_gen w /\
  prandom_pos w' = prandom_pos w /\
  (exists t, trace w' = trace w ++ t /\
             (length t <= length (concat ctx))%nat /\
             Forall (fun ev => exists r, In r (concat ctx) /\
                                         ev = EvYoung (sampling_addr r)) t) /\
  (Forall (fun r => 0 <= nr_accesses r < 2 ^ 32 - 1) (concat ctx) ->
   Forall2 (fun r r' => nr_accesses r <= nr_accesses r' <= nr_accesses r + 1)
           (concat ctx) (concat ctx')).
Proof.
  unfold damon_pa_check_accesses.
  pose proof (for_each_lengths check_accesses_body ctx (w, 0)) as Hl.
  destruct (for_each_flat check_accesses_body ctx (w, 0)) as [Hf Hs].
  rewrite check_accesses_body_flat in Hf, Hs by done.
  pose proof (check_flat_frame (concat ctx) w) as Hp. cbn zeta in Hp.
  destruct (for_each __damon_pa_check_access w (concat ctx)) as [w2 rs'].
  destruct (for_each (for_each check_accesses_body) (w, 0) ctx)
    as [[w' ret] ctx']. simpl in *.
  injection Hf as <- _. subst rs'.
  destruct Hp as (H1 & H2 & H3 & H4 & H5 & H6 & H7). by repeat split.
Qed.

(** Witness of [check_reads_only]: a counter that is 0 does not go down. *)
Lemma check_reads_only_witness :
  Forall2 (fun r r' => nr_accesses r <= nr_accesses r' <= nr_accesses r + 1)
          (concat ctx_frame1)
          (concat (snd (fst (damon_pa_check_accesses w_unmapped_touched
                                                     ctx_frame1)))).
Proof.
  pose proof (check_reads_only w_unmapped_touched ctx_frame1) as H.
  destruct (damon_pa_check_accesses w_unmapped_touched ctx_frame1)
    as [[w' ctx'] ret].
  apply H. apply (bool_decide_unpack _). vm_compute. exact I.
Defined.

(** ** The deduplication skips no frame *)

Lemma prepare_visit_marks t0 w r :
  marked_since t0 w ->
  let w1 := fst (__damon_pa_prepare_access_check w r) in
  let F := PHYS_PFN (sampling_addr (snd (__damon_pa_prepare_access_check w r))) in
  marked_since t0 w1 /\
  (mkold_calls F t0 < mkold_calls F (trace w1))%nat.
Proof.
  intros (Hg & Hle & Hinv). rewrite prepare_cases.
  unfold draw_sample, damon_rand. cbn [fst snd].
  set (wd := {| damon_pa_cache := damon_pa_cache w;
                damon_pa_cache_gen := damon_pa_cache_gen w; mm := mm w;
                prandom := prandom w; prandom_pos := S (prandom_pos w);
                trace := trace w |}).
  set (r1 := set_sampling_addr r _).
  set (F := PHYS_PFN (sampling_addr r1)).
  assert (forall G, (mkold_calls G (trace w)
            <= mkold_calls G (trace w ++ [EvMkold (sampling_addr r1)]))%nat)
    as Hmono.
  { intros G. rewrite mkold_calls_app. lia. }
  assert (mkold_calls F (trace w)
          < mkold_calls F (trace w ++ [EvMkold (sampling_addr r1)]))%nat
    as Hnew.
  { rewrite mkold_calls_app. unfold mkold_calls at 3.
    cbn [List.filter]. fold F. rewrite Z.eqb_refl. simpl. lia. }
  clearbody r1.
  destruct (dedup_hit wd F) eqn:Hd; cbn [fst snd]; fold F.
  - split; [by repeat split|].
    apply dedup_hit_found in Hd as [e He].
    apply lookup_Some in He as (_ & Hl & Hp).
    unfold wd in Hl, Hp. cbn [damon_pa_cache damon_pa_cache_gen] in Hl, Hp.
    pose proof (live_slot_lookup _ _ _ Hg Hl) as Hs.
    rewrite Forall_lookup in Hinv. specialize (Hinv _ _ Hs Hl).
    rewrite Hp in Hinv. exact Hinv.
  - unfold cache_claim_fill, cache_fill, damon_pa_mkold. simpl. fold F.
    pose proof (Hle F) as HleF.
    split; [|lia]. split; [done|]. split.
    + intros G. specialize (Hle G). specialize (Hmono G). simpl. lia.
    + simpl. apply Forall_insert.
      * eapply Forall_impl; [exact Hinv|]. simpl. intros e He Hl.
        specialize (He Hl). specialize (Hmono (ent_pfn e)). lia.
      * simpl. intros _. lia.
Qed.

Lemma prepare_flat_marks t0 rs : forall w,
  marked_since t0 w ->
  let p := for_each __damon_pa_prepare_access_check w rs in
  marked_since t0 (fst p) /\
  Forall (fun r' =>
            (mkold_calls (PHYS_PFN (sampling_addr r')) t0
             < mkold_calls (PHYS_PFN (sampling_addr r')) (trace (fst p)))%nat)
         (snd p).
Proof.
  induction rs as [|r rs IH]; intros w Hw; [by split|].
  cbn zeta. destruct (for_each_cons __damon_pa_prepare_access_check w r rs)
    as [-> ->].
  destruct (prepare_visit_marks t0 w r Hw) as [Hw1 Hr].
  destruct (IH _ Hw1) as [Hw2 Hrs]. cbn zeta in *.
  split; [done|]. constructor; [|done].
  set (w1 := fst (__damon_pa_prepare_access_check w r)) in *.
  set (F := PHYS_PFN (sampling_addr (snd (__damon_pa_prepare_access_check w r)))) in *.
  assert (forall G, (mkold_calls G (trace w1)
            <= mkold_calls G (trace (fst (for_each
                 __damon_pa_prepare_access_check w1 rs))))%nat) as Hmono.
  { intros G.
    destruct (prepare_flat_frame rs w1) as (_ & _ & _ & _ & _ & t & -> & _).
    rewrite mkold_calls_app. lia. }
  specialize (Hmono F). lia.
Qed.

(** X11.  The deduplication skips no frame.  In a round that starts from
    a state in which no slot carries the new generation, the mark-cold
    operation is called, during the prepare phase, at least once on the
    sample frame of every region: a region is skipped only when its frame
    was marked earlier in the same phase. *)
Theorem prepare_marks_every_frame (w : world) (ctx : damon_ctx) :
  fresh w ->
  let '(w', ctx') := damon_pa_prepare_access_checks w ctx in
  Forall (fun r' =>
            (mkold_calls (PHYS_PFN (sampling_addr r')) (trace w)
             < mkold_calls (PHYS_PFN (sampling_addr r')) (trace w'))%nat)
         (concat ctx').
Proof.
  intros Hf. unfold damon_pa_prepare_access_checks.
  destruct (for_each_flat __damon_pa_prepare_access_check ctx
              (damon_pa_cache_round_begin w)) as [Hfst Hsnd].
  assert (marked_since (trace w) (damon_pa_cache_round_begin w)) as H0.
  { split; [apply round_begin_gen_nonzero|]. split; [done|].
    unfold fresh in Hf. eapply Forall_impl; [exact Hf|].
    intros e He Hl. by destruct He. }
  destruct (prepare_flat_marks (trace w) (concat ctx) _ H0) as [_ Hall].
  cbn zeta in Hall. rewrite Hfst, Hsnd in Hall.
  by destruct (for_each (for_each __damon_pa_prepare_access_check) _ ctx).
Qed.

(** Witness of [prepare_marks_every_frame]: the six regions of
    [ctx_evict], two of which sample frame 1, in the first round. *)
Lemma prepare_marks_every_frame_witness :
  Forall (fun r' =>
            (mkold_calls (PHYS_PFN (sampling_addr r'))
                         (trace (boot mm_frame1 no_draws))
             < mkold_calls (PHYS_PFN (sampling_addr r'))
                 (trace (fst (damon_pa_prepare_access_checks
                                (boot mm_frame1 no_draws) ctx_evict))))%nat)
         (concat (snd (damon_pa_prepare_access_checks
                         (boot mm_frame1 no_draws) ctx_evict))).
Proof.
  assert (fresh (boot mm_frame1 no_draws)) as Hf.
  { unfold fresh. apply (bool_decide_unpack _). vm_compute. exact I. }
  pose proof (prepare_marks_every_frame (boot mm_frame1 no_draws) ctx_evict Hf)
    as H.
  by destruct (damon_pa_prepare_access_checks _ ctx_evict).
Defined.

(** ** A round in which nothing is accessed *)

Lemma cold_mkold m F G : cold m F -> cold (damon_pa_mkold_mm m G) F.
Proof.
  unfold cold. intros Hc. destruct (decide (G = F)) as [->|HG].
  - rewrite young_mm_accessed. unfold young_spec, damon_pa_mkold_mm.
    destruct (m !! F) as [p|] eqn:Hp.
    + rewrite lookup_insert_eq. apply young_page_after_mkold.
    + by rewrite Hp.
  - rewrite <- Hc. f_equal. unfold damon_pa_young_mm, damon_pa_mkold_mm.
    destruct (m !! G) as [q|]; [|done]. by rewrite lookup_insert_ne.
Qed.

Lemma cold_after_mkold m F : cold (damon_pa_mkold_mm m F) F.
Proof.
  unfold cold. rewrite young_mm_accessed.
  unfold young_spec, damon_pa_mkold_mm.
  destruct (m !! F) as [p|] eqn:Hp.
  - rewrite lookup_insert_eq. apply young_page_after_mkold.
  - by rewrite Hp.
Qed.

Lemma prepare_flat_cold rs : forall w,
  prep_inv w ->
  let p := for_each __damon_pa_prepare_access_check w rs in
  prep_inv (fst p) /\
  Forall (fun r' => cold (mm (fst p)) (PHYS_PFN (sampling_addr r'))) (snd p) /\
  (forall F, cold (mm w) F -> cold (mm (fst p)) F).
Proof.
  induction rs as [|r rs IH]; intros w Hw.
  { simpl. split; [done|]. split; [constructor|done]. }
  cbn zeta. destruct (for_each_cons __damon_pa_prepare_access_check w r rs)
    as [-> ->].
  destruct (prepare_normal w r Hw) as (Hr & Hm & _ & _ & _ & Hw1).
  destruct (IH _ Hw1) as (Hw2 & Hrs & Hmono). cbn zeta in *.
  split; [done|]. split.
  - constructor; [|done]. apply Hmono. rewrite Hm, Hr. apply cold_after_mkold.
  - intros F HF. apply Hmono. rewrite Hm. by apply cold_mkold.
Qed.

Lemma check_visit_cold w r :
  resolved_cold w -> cold (mm w) (PHYS_PFN (sampling_addr r)) ->
  snd (__damon_pa_check_access w r) = r /\
  resolved_cold (fst (__damon_pa_check_access w r)) /\
  mm (fst (__damon_pa_check_access w r)) = mm w.
Proof.
  intros [Hg Hinv] Hc. unfold cold in Hc. rewrite check_cases.
  set (F := PHYS_PFN (sampling_addr r)) in *.
  destruct (resolved_hit w F) as [acc|] eqn:Hhit.
  - unfold resolved_hit in Hhit.
    destruct (damon_pa_cache_lookup w F) as [e|] eqn:He; [|done].
    destruct (negb _) eqn:Hsz; [|done]. injection Hhit as <-.
    apply lookup_Some in He as (_ & Hl & Hp).
    pose proof (live_slot_lookup _ _ _ Hg Hl) as Hs.
    pose proof Hinv as Hall.
    rewrite Forall_lookup in Hinv. specialize (Hinv _ _ Hs Hl).
    rewrite Hinv by lia. by repeat split.
  - rewrite check_access_slow_region, check_access_slow_world. fold F.
    rewrite Hc. split; [done|]. cbn zeta.
    destruct (damon_pa_young_mm (mm w) F PAGE_SIZE) as [a sz].
    simpl in Hc. subst a.
    assert (resolved_cold
      (cache_claim_fill (log w (EvYoung (sampling_addr r))) (F, sz, false)))
      as H1.
    { split; [done|]. unfold cache_claim_fill, cache_fill. simpl.
      by apply Forall_insert. }
    destruct (PAGE_SIZE <? sz); [|done]. split; [|done].
    destruct H1 as [Hg1 H1]. split; [done|].
    unfold cache_claim_fill at 1 2. unfold cache_fill. simpl.
    by apply Forall_insert.
Qed.

Lemma for_each_id {S A : Type} (I : S -> Prop) (P : S -> A -> Prop)
    (body : S -> A -> S * A) :
  (forall s x, I s -> P s x ->
     snd (body s x) = x /\ I (fst (body s x)) /\
     forall y, P s y -> P (fst (body s x)) y) ->
  forall l s, I s -> Forall (P s) l ->
    snd (for_each body s l) = l /\ I (fst (for_each body s l)) /\
    forall y, P s y -> P (fst (for_each body s l)) y.
Proof.
  intros Hb. induction l as [|x l IH]; intros s Hs Hl.
  { simpl. by repeat split. }
  destruct (for_each_cons body s x l) as [-> ->].
  inversion Hl as [|? ? Hx Hl']; subst.
  destruct (Hb s x Hs Hx) as (E & Hs1 & Hmono).
  destruct (IH (fst (body s x)) Hs1) as (El & Hs2 & Hmono2).
  { eapply Forall_impl; [exact Hl'|]. intros y. apply Hmono. }
  rewrite E, El. repeat split; [done|]. intros y Hy. by apply Hmono2, Hmono.
Qed.

Lemma Forall_concat_inv {A : Type} (P : A -> Prop) (ll : list (list A)) :
  Forall P (concat ll) -> Forall (Forall P) ll.
Proof.
  induction ll as [|l ll IH]; simpl; [constructor|].
  rewrite Forall_app. intros [H1 H2]. constructor; [done|by apply IH].
Qed.

Lemma max_nr_accesses_of_ext rs rs' :
  map nr_accesses rs = map nr_accesses rs' ->
  max_nr_accesses_of rs = max_nr_accesses_of rs'.
Proof. unfold max_nr_accesses_of. by intros ->. Qed.

(** X12.  A round in which nothing is accessed counts nothing.  Take a
    round that starts from a state in which no slot carries the new
    generation, and let the check phase follow the prepare phase with no
    access to memory in between.  Then every sample frame is found cold: the
    check phase leaves all regions as the prepare phase left them, no
    counter moves, and the value returned is the largest counter the regions
    had before the round. *)
Theorem quiet_round_counts_nothing (w : world) (ctx : damon_ctx) :
  fresh w ->
  let '(w1, ctx1) := damon_pa_prepare_access_checks w ctx in
  let '(w2, ctx2, ret) := damon_pa_check_accesses w1 ctx1 in
  ctx2 = ctx1 /\
  map nr_accesses (concat ctx2) = map nr_accesses (concat ctx) /\
  ret = max_nr_accesses_of (concat ctx).
Proof.
  intros Hf. unfold damon_pa_prepare_access_checks.
  set (w0 := damon_pa_cache_round_begin w).
  pose proof (prep_inv_round_begin w Hf) as H0. fold w0 in H0.
  destruct (for_each_flat __damon_pa_prepare_access_check ctx w0)
    as [Hfst Hsnd].
  destruct (prepare_flat_cold (concat ctx) w0 H0) as (Hinv & Hcold & _).
  destruct (prepare_flat_frame (concat ctx) w0) as (_ & _ & Hnr & _).
  cbn zeta in Hinv, Hcold, Hnr. rewrite Hfst in Hinv, Hcold.
  rewrite Hsnd in Hcold, Hnr.
  destruct (for_each (for_each __damon_pa_prepare_access_check) w0 ctx)
    as [w1 ctx1]. cbn [fst snd] in *.
  unfold damon_pa_check_accesses.
  destruct (for_each_id
    (fun s : world * Z => resolved_cold (fst s))
    (fun (s : world * Z) (t : list damon_region) =>
       Forall (fun r => cold (mm (fst s)) (PHYS_PFN (sampling_addr r))) t)
    (for_each check_accesses_body)) with (l := ctx1) (s := (w1, 0))
    as (Hid & _ & _).
  { intros s t Hs Ht.
    destruct (for_each_id
      (fun s : world * Z => resolved_cold (fst s))
      (fun (s : world * Z) (r : damon_region) =>
         cold (mm (fst s)) (PHYS_PFN (sampling_addr r)))
      check_accesses_body) with (l := t) (s := s) as (E & Hs' & Hmono);
      [|done|done|].
    - intros [wa mx] r Ha Hr. cbn [fst] in *. unfold check_accesses_body.
      destruct (check_visit_cold wa r Ha Hr) as (Er & Ha' & Hm).
      destruct (__damon_pa_check_access wa r) as [wb rb]. cbn [fst snd] in *.
      split; [done|]. split; [done|]. intros y. by rewrite Hm.
    - split; [done|]. split; [done|]. intros t' Ht'.
      eapply Forall_impl; [exact Ht'|]. intros y. apply Hmono. }
  { cbn [fst]. destruct Hinv as [Hg Hall]. split; [done|].
    eapply Forall_impl; [exact Hall|]. simpl. intros e He Hl Hsz.
    by destruct (He Hl). }
  { cbn [fst]. by apply Forall_concat_inv. }
  destruct (for_each_flat check_accesses_body ctx1 (w1, 0)) as [Cf Cs].
  rewrite check_accesses_body_flat in Cf, Cs by done.
  destruct (for_each __damon_pa_check_access w1 (concat ctx1)) as [wc rs'].
  destruct (for_each (for_each check_accesses_body) (w1, 0) ctx1)
    as [[w2 ret] ctx2]. cbn [fst snd] in *. subst ctx2 rs'.
  split; [done|]. split; [done|].
  injection Cf as _ <-.
  pose proof (max_nr_accesses_of_nonneg (concat ctx1)).
  rewrite Z.max_l by lia.
  by apply max_nr_accesses_of_ext.
Qed.

(** Witness of [quiet_round_counts_nothing]: the first round after boot on
    the three regions of [ctx_unit], whose frames are young before the
    round and are not touched during it. *)
Lemma quiet_round_counts_nothing_witness :
  let '(w1, ctx1) :=
    damon_pa_prepare_access_checks (boot mm_unit no_draws) ctx_unit in
  let '(w2, ctx2, ret) := damon_pa_check_accesses w1 ctx1 in
  ctx2 = ctx1 /\
  map nr_accesses (concat ctx2) = map nr_accesses (concat ctx_unit) /\
  ret = max_nr_accesses_of (concat ctx_unit).
Proof.
  assert (fresh (boot mm_unit no_draws)) as Hf.
  { unfold fresh. apply (bool_decide_unpack _). vm_compute. exact I. }
  exact (quiet_round_counts_nothing (boot mm_unit no_draws) ctx_unit Hf).
Defined.

(** ** More on the reclaim executor *)

Lemma pageout_scan_body_keeps w addr pl :
  let w1 := fst (pageout_scan_body w addr pl) in
  damon_pa_cache w1 = damon_pa_cache w /\
  damon_pa_cache_gen w1 = damon_pa_cache_gen w /\
  prandom_pos w1 = prandom_pos w.
Proof.
  unfold pageout_scan_body, damon_get_page. simpl.
  destruct (mm w !! PHYS_PFN addr) as [p|]; simpl; [|done].
  by destruct (isolate_busy p); [|destruct (PageUnevictable p)].
Qed.

Lemma pageout_scan_keeps end_ fuel : forall w addr pl w1 pl1,
  pageout_scan fuel w addr end_ pl = Some (w1, pl1) ->
  damon_pa_cache w1 = damon_pa_cache w /\
  damon_pa_cache_gen w1 = damon_pa_cache_gen w /\
  prandom_pos w1 = prandom_pos w.
Proof.
  induction fuel as [|fuel IH]; intros w addr pl w1 pl1; simpl.
  - destruct (addr <? end_); [done|]. by intros [= <- <-].
  - destruct (addr <? end_); [|by intros [= <- <-]].
    pose proof (pageout_scan_body_keeps w addr pl) as Hb.
    destruct (pageout_scan_body w addr pl) as [w0 pl0]. simpl in Hb.
    intros Hs. apply IH in Hs. destruct Hs as (A & B & C).
    destruct Hb as (A' & B' & C'). repeat split; congruence.
Qed.

(** X13.  What the reclaim executor reports.  For a region whose range
    does not reach the top page of the address space,
    [damon_pa_apply_scheme] returns, whatever the action, a whole number of
    pages' worth of bytes that is never more than the range it scanned,
    rounded up to pages, and 0 for an empty range.  It never touches the
    round cache, the generation or the random source. *)
Theorem apply_scheme_bounded (w : world) (r : damon_region) (scheme : damos)
    (fuel : nat) :
  0 <= ar_start r -> ar_end r <= 2 ^ 64 - PAGE_SIZE ->
  (scan_fuel r <= fuel)%nat ->
  exists w' n,
    damon_pa_apply_scheme fuel w r scheme = Some (w', n) /\
    0 <= n <= Z.max 0 (ar_end r - ar_start r + PAGE_SIZE - 1) /\
    n mod PAGE_SIZE = 0 /\
    (ar_end r <= ar_start r -> n = 0) /\
    damon_pa_cache w' = damon_pa_cache w /\
    damon_pa_cache_gen w' = damon_pa_cache_gen w /\
    prandom_pos w' = prandom_pos w.
Proof.
  intros Hs He Hfuel. unfold damon_pa_apply_scheme.
  destruct (bool_decide (action scheme = DAMOS_PAGEOUT)); simpl.
  - destruct (pageout_scan_terminates (ar_end r) fuel w (ar_start r) [])
      as (w1 & pl & evs & Hscan & _ & _ & Hlen);
      [done|done|by apply scan_fuel_enough|].
    rewrite Hscan. simpl. eexists _, _. split; [reflexivity|].
    apply pageout_scan_keeps in Hscan as (Hc & Hg & Hp).
    pose proof (reclaimed_count_bound (mm w1) pl) as Hb.
    simpl in Hlen. rewrite PAGE_SIZE_eq in *.
    unfold ulong. change (2 ^ BITS_PER_LONG) with (2 ^ 64).
    rewrite Z.mod_small by lia.
    split; [lia|]. split; [apply Z_mod_mult|]. split; [lia|]. done.
  - exists w, 0. split; [done|]. rewrite PAGE_SIZE_eq. split; [lia|].
    by repeat split.
Qed.

(** Witness of [apply_scheme_bounded]: paging out frames 1 and 2. *)
Lemma apply_scheme_bounded_witness :
  exists w' n,
    damon_pa_apply_scheme 3 (boot mm_two_pages no_draws) two_pages
                          pageout_scheme = Some (w', n) /\
    0 <= n <= Z.max 0 (ar_end two_pages - ar_start two_pages + PAGE_SIZE - 1) /\
    n mod PAGE_SIZE = 0 /\
    (ar_end two_pages <= ar_start two_pages -> n = 0) /\
    damon_pa_cache w' = damon_pa_cache (boot mm_two_pages no_draws) /\
    damon_pa_cache_gen w' = damon_pa_cache_gen (boot mm_two_pages no_draws) /\
    prandom_pos w' = prandom_pos (boot mm_two_pages no_draws).
Proof.
  refine (apply_scheme_bounded (boot mm_two_pages no_draws) two_pages
            pageout_scheme 3%nat _ _ _).
  - simpl. lia.
  - vm_compute. discriminate.
  - vm_compute. lia.
Defined.

Lemma PHYS_PFN_div a : PHYS_PFN a = a / 4096.
Proof. unfold PHYS_PFN. by rewrite Z.shiftr_div_pow2. Qed.

Lemma PHYS_PFN_next a : PHYS_PFN (a + 4096) = PHYS_PFN a + 1.
Proof.
  rewrite !PHYS_PFN_div. replace (a + 4096) with (a + 1 * 4096) by lia.
  by rewrite Z.div_add.
Qed.

Lemma pageout_scan_collects (Q : Z -> Prop) (m0 : gmap Z page) end_ fuel :
  (forall pfn p, pfn * 4096 < end_ -> m0 !! pfn = Some p ->
                 isolate_busy p = false -> PageUnevictable p = false ->
                 Q pfn) ->
  forall w addr pl w1 pl1,
    0 <= addr -> end_ <= 2 ^ 64 - 4096 ->
    (forall pfn, PHYS_PFN addr <= pfn -> mm w !! pfn = m0 !! pfn) ->
    Forall (fun pfn => Q pfn /\ pfn < PHYS_PFN addr) pl -> NoDup pl ->
    pageout_scan fuel w addr end_ pl = Some (w1, pl1) ->
    Forall Q pl1 /\ NoDup pl1.
Proof.
  intros HQ.
  induction fuel as [|fuel IH]; intros w addr pl w1 pl1 Ha He Hm Hpl Hnd.
  - simpl. destruct (addr <? end_); [done|]. intros [= <- <-].
    split; [|done]. eapply Forall_impl; [exact Hpl|]. by intros ? [? ?].
  - simpl. destruct (addr <? end_) eqn:Hlt.
    2:{ intros [= <- <-]. split; [|done].
        eapply Forall_impl; [exact Hpl|]. by intros ? [? ?]. }
    apply Z.ltb_lt in Hlt.
    rewrite PAGE_SIZE_eq. unfold ulong.
    change (2 ^ BITS_PER_LONG) with (2 ^ 64). rewrite Z.mod_small by lia.
    assert (PHYS_PFN addr * 4096 < end_) as Hin.
    { rewrite PHYS_PFN_div.
      pose proof (Z.mul_div_le addr 4096 ltac:(lia)). lia. }
    assert (Forall (fun pfn => Q pfn /\ pfn < PHYS_PFN (addr + 4096)) pl)
      as Hpl'.
    { eapply Forall_impl; [exact Hpl|]. intros x [? ?].
      rewrite PHYS_PFN_next. split; [done|lia]. }
    pose proof (Hm (PHYS_PFN addr) ltac:(lia)) as Hcur.
    unfold pageout_scan_body, damon_get_page. simpl.
    destruct (mm w !! PHYS_PFN addr) as [p|] eqn:Hp.
    + assert (forall pfn, PHYS_PFN (addr + 4096) <= pfn ->
                <[PHYS_PFN addr := clear_page_refs p]> (mm w) !! pfn
                = m0 !! pfn) as Hm'.
      { intros pfn Hle. rewrite PHYS_PFN_next in Hle.
        rewrite lookup_insert_ne by lia. apply Hm. lia. }
      destruct (isolate_busy p) eqn:Hbusy;
        [|destruct (PageUnevictable p) eqn:Hun].
      * apply IH; try done. lia.
      * apply IH; try done. lia.
      * apply IH; try done; [lia| |].
        -- constructor; [|done]. split.
           ++ by apply (HQ _ p).
           ++ rewrite PHYS_PFN_next. lia.
        -- apply NoDup_cons. split; [|done]. intros Hel.
           rewrite Forall_forall in Hpl. destruct (Hpl _ Hel). lia.
    + apply IH; try done; [lia|]. intros pfn Hle.
      rewrite PHYS_PFN_next in Hle. apply Hm. lia.
Qed.

(** X14.  What the reclaim executor hands to [reclaim_pages].  For a
    region whose range does not reach the top page of the address space,
    the list the scan collects holds no frame twice, and every frame in it
    lies in the range of the region and had, when the scan began, a page
    that could be isolated and is evictable: frames without a page, busy
    pages and unevictable pages are never handed to the reclaim. *)
Theorem pageout_collects_evictable (w : world) (r : damon_region)
    (fuel : nat) (w1 : world) (page_list : list Z) :
  0 <= ar_start r -> ar_end r <= 2 ^ 64 - PAGE_SIZE ->
  pageout_scan fuel w (ar_start r) (ar_end r) [] = Some (w1, page_list) ->
  NoDup page_list /\
  Forall (fun pfn =>
            pfn * PAGE_SIZE < ar_end r /\
            exists p, mm w !! pfn = Some p /\ isolate_busy p = false /\
                      PageUnevictable p = false)
         page_list.
Proof.
  intros Hs He Hscan. rewrite PAGE_SIZE_eq in *.
  assert (forall pfn p, pfn * 4096 < ar_end r -> mm w !! pfn = Some p ->
            isolate_busy p = false -> PageUnevictable p = false ->
            pfn * 4096 < ar_end r /\
            exists p, mm w !! pfn = Some p /\ isolate_busy p = false /\
                      PageUnevictable p = false) as HQ by eauto.
  destruct (pageout_scan_collects _ (mm w) (ar_end r) fuel HQ
              w (ar_start r) [] w1 page_list Hs He) as [Hall Hnd];
    [done|constructor|constructor|done|].
  by split.
Qed.

(** Witness of [pageout_collects_evictable]: the scan of frames 1 and 2. *)
Lemma pageout_collects_evictable_witness :
  match pageout_scan 3 (boot mm_two_pages no_draws) 4096 12288 [] with
  | Some (w1, page_list) =>
      NoDup page_list /\
      Forall (fun pfn =>
                pfn * PAGE_SIZE < 12288 /\
                exists p, mm_two_pages !! pfn = Some p /\
                          isolate_busy p = false /\
                          PageUnevictable p = false)
             page_list
  | None => False
  end.
Proof.
  destruct (pageout_scan 3 (boot mm_two_pages no_draws) 4096 12288 [])
    as [[w1 pl]|] eqn:E.
  - refine (pageout_collects_evictable (boot mm_two_pages no_draws) two_pages
              3%nat w1 pl _ _ E).
    + simpl. lia.
    + vm_compute. discriminate.
  - vm_compute in E. discriminate.
Defined.

(** ** The sample address *)

(** X15.  The sample lies in the region.  For a region with
    [0 <= start < end <= 2^64], the address the prepare phase stores in
    [sampling_addr] lies in [[start, end)].  The width handed to
    [prandom_u32_max] is an [u32]: only the first [(end - start) mod 2^32]
    bytes of the region can be sampled, and just the first byte when that is
    0.  ([damon_rand] is modelled after include/linux/damon.h.) *)
Theorem sample_in_region (w : world) (r : damon_region) :
  0 <= ar_start r -> ar_start r < ar_end r -> ar_end r <= 2 ^ 64 ->
  let r' := snd (__damon_pa_prepare_access_check w r) in
  ar_start r <= sampling_addr r' < ar_end r /\
  sampling_addr r'
  < ar_start r + Z.max 1 ((ar_end r - ar_start r) mod 2 ^ 32).
Proof.
  intros Hs Hlt He. cbn zeta. rewrite prepare_region.
  unfold draw_sample, damon_rand, prandom_u32_max, uint, ulong. simpl.
  change (2 ^ BITS_PER_LONG) with (2 ^ 64).
  set (v := prandom w (prandom_pos w) mod 2 ^ 32).
  set (d := (ar_end r - ar_start r) mod 2 ^ 32).
  assert (0 <= v < 2 ^ 32) as Hv by (apply Z.mod_pos_bound; lia).
  assert (0 <= d < 2 ^ 32) as Hd by (apply Z.mod_pos_bound; lia).
  assert (d <= ar_end r - ar_start r) as Hdle by (apply Z.mod_le; lia).
  rewrite Z.shiftr_div_pow2 by lia.
  assert (0 <= v * d / 2 ^ 32 < Z.max 1 d) as Hk.
  { split; [apply Z.div_pos; nia|].
    destruct (decide (d = 0)) as [Hd0|Hd0].
    - rewrite Hd0, Z.mul_0_r. change (0 / 2 ^ 32) with 0. lia.
    - apply Z.div_lt_upper_bound; [lia|]. nia. }
  rewrite (Z.mod_small (v * d / 2 ^ 32)) by lia.
  rewrite Z.mod_small by lia. lia.
Qed.

(** Witness of [sample_in_region]: the region of frames 1 and 2. *)
Lemma sample_in_region_witness :
  4096 <= sampling_addr (snd (__damon_pa_prepare_access_check w_begun two_pages))
  < 12288.
Proof.
  refine (proj1 (sample_in_region w_begun two_pages _ _ _)).
  - simpl. lia.
  - simpl. lia.
  - vm_compute. discriminate.
Defined.

(** * Deduplication across the visits of a round *)

(** A claim in a probe window that is not full takes a stale slot, hence
    not the slot a lookup returns. *)
Lemma window_not_full_get_slot w F G s :
  window_full w G = false ->
  damon_pa_cache_lookup w F = Some s ->
  damon_pa_cache_get_slot w G <> s.
Proof.
  intros Hnf Hl Heq. apply lookup_Some in Hl as (_ & Hg & _).
  unfold damon_pa_cache_get_slot in Heq.
  destruct (find _ (probe_window G)) as [t|] eqn:Hf.
  - apply find_some in Hf as [_ Hst]. simpl in Hst. subst t.
    apply negb_true_iff in Hst. unfold live in Hst. lia.
  - assert (window_full w G = true) as Hfull; [|congruence].
    apply forallb_forall. intros x Hin.
    pose proof (find_none _ _ Hf x Hin) as Hn. simpl in Hn.
    by apply negb_false_iff in Hn.
Qed.

(** In a round, a visit of the prepare phase that does not claim in a full
    window keeps the live entry of every frame, and calls the mark-cold
    operation on no frame that has one. *)
Lemma prepare_keeps_entry w r F :
  marked w -> damon_pa_cache_gen w <> 0 ->
  is_Some (damon_pa_cache_lookup w F) ->
  claims_in_full_window w r = false ->
  let w1 := fst (__damon_pa_prepare_access_check w r) in
  is_Some (damon_pa_cache_lookup w1 F) /\
  mkold_calls F (trace w1) = mkold_calls F (trace w).
Proof.
  intros Hm Hg [e He] Hnf. unfold claims_in_full_window in Hnf.
  rewrite prepare_cases.
  destruct (draw_sample_cache w r) as (Hc & Hgen & _ & Ht).
  destruct (draw_sample w r) as [wd rd]. cbn [fst snd] in *.
  set (G := PHYS_PFN (sampling_addr rd)) in *.
  assert (damon_pa_cache_lookup wd F = Some e) as Hed.
  { by rewrite (lookup_ext w wd). }
  destruct (dedup_hit wd G) eqn:Hd; cbn [fst snd negb andb] in *.
  - split; [eauto|by rewrite Ht].
  - assert (G <> F) as HGF.
    { intros HGF. unfold dedup_hit in Hd. rewrite HGF, Hed, Hc in Hd.
      by rewrite (marked_lookup w F e Hm Hg He) in Hd. }
    split.
    + rewrite claim_other_keeps_lookup; [| done |].
      * rewrite (lookup_ext wd) by done. eauto.
      * intros s Hs. by apply (window_not_full_get_slot _ F).
    + unfold cache_claim_fill, damon_pa_mkold. simpl.
      rewrite mkold_calls_app, Ht. unfold mkold_calls at 2. simpl.
      fold G. destruct (G =? F) eqn:E; [|simpl; lia].
      apply Z.eqb_eq in E. done.
Qed.

Lemma prepare_flat_keeps_entry F rs : forall w,
  reachable w -> damon_pa_cache_gen w <> 0 ->
  is_Some (damon_pa_cache_lookup w F) ->
  no_full_window_claim w rs = true ->
  let w1 := fst (for_each __damon_pa_prepare_access_check w rs) in
  reachable w1 /\ damon_pa_cache_gen w1 <> 0 /\
  is_Some (damon_pa_cache_lookup w1 F) /\
  mkold_calls F (trace w1) = mkold_calls F (trace w).
Proof.
  induction rs as [|r rs IH]; intros w Hr Hg Hf Hn; [done|].
  cbn [no_full_window_claim] in Hn.
  apply andb_true_iff in Hn as [Hn1 Hn2]. apply negb_true_iff in Hn1.
  destruct (prepare_keeps_entry w r F (reachable_marked w Hr) Hg Hf Hn1)
    as [Hf1 Hc1].
  destruct (for_each_cons __damon_pa_prepare_access_check w r rs) as [Hw _].
  cbn zeta. rewrite Hw.
  assert (damon_pa_cache_gen (fst (__damon_pa_prepare_access_check w r)) <> 0)
    as Hg1 by by rewrite prepare_gen.
  destruct (IH _ (reach_prepare w r Hr) Hg1 Hf1 Hn2) as (H1 & H2 & H3 & H4).
  split; [done|]. split; [done|]. split; [done|]. by rewrite H4.
Qed.

(** C3, as amended.  In a round that has begun, let a region be visited by
    the prepare phase, then any number of other regions, then a region
    whose sample lies in the frame of the first.  If none of the visits in
    between claims a slot of a full probe window, the last visit calls
    nothing, and from before the first visit to after the last the
    mark-cold operation is called on that frame at most once. *)
Theorem prepare_dedups_until_full_claim (w : world) (r1 r2 : damon_region)
    (mid : list damon_region) :
  reachable w -> damon_pa_cache_gen w <> 0 ->
  let w1 := fst (__damon_pa_prepare_access_check w r1) in
  let r1' := snd (__damon_pa_prepare_access_check w r1) in
  let wm := fst (for_each __damon_pa_prepare_access_check w1 mid) in
  let w2 := fst (__damon_pa_prepare_access_check wm r2) in
  let r2' := snd (__damon_pa_prepare_access_check wm r2) in
  no_full_window_claim w1 mid = true ->
  PHYS_PFN (sampling_addr r2') = PHYS_PFN (sampling_addr r1') ->
  trace w2 = trace wm /\
  (mkold_calls (PHYS_PFN (sampling_addr r1')) (trace w2)
   <= S (mkold_calls (PHYS_PFN (sampling_addr r1')) (trace w)))%nat.
Proof.
  intros Hr Hg w1 r1' wm w2 r2' Hmid Hsame.
  pose proof (reachable_cache_sized w Hr) as Hs.
  destruct (prepare_leaves_entry w r1 Hs) as [Hfound Hcount].
  fold w1 r1' in Hfound, Hcount.
  assert (reachable w1) as Hr1 by by apply reach_prepare.
  assert (damon_pa_cache_gen w1 <> 0) as Hg1.
  { unfold w1. by rewrite prepare_gen. }
  destruct (prepare_flat_keeps_entry _ mid w1 Hr1 Hg1 Hfound Hmid)
    as (Hrm & Hgm & Hfm & Hcm).
  fold wm in Hrm, Hgm, Hfm, Hcm.
  assert (__damon_pa_prepare_access_check wm r2 = draw_sample wm r2) as Hskip.
  { apply prepare_skips_found.
    - by apply reachable_marked.
    - done.
    - rewrite <- prepare_region. fold r2'. by rewrite Hsame. }
  assert (trace w2 = trace wm) as Ht.
  { unfold w2. rewrite Hskip. apply draw_sample_cache. }
  split; [done|]. by rewrite Ht, Hcm.
Qed.

(** Witness of [prepare_dedups_until_full_claim]: at the start of the first
    round frame 1 is sampled, then the frames 234 and 611 of its bucket,
    frame 1 again and frame 844, which takes the last stale slot of the
    window, then frame 1 once more. *)
Lemma prepare_dedups_until_full_claim_witness :
  let mid := [one_page 234; one_page 611; one_page 1; one_page 844] in
  let w1 := fst (__damon_pa_prepare_access_check w_begun (one_page 1)) in
  let wm := fst (for_each __damon_pa_prepare_access_check w1 mid) in
  let w2 := fst (__damon_pa_prepare_access_check wm (one_page 1)) in
  trace w2 = trace wm /\
  (mkold_calls 1 (trace w2) <= S (mkold_calls 1 (trace w_begun)))%nat.
Proof.
  intros mid w1 wm w2.
  assert (reachable w_begun) as Hr.
  { apply reach_round_begin, reach_boot. }
  assert (damon_pa_cache_gen w_begun <> 0) as Hg.
  { vm_compute. discriminate. }
  assert (no_full_window_claim w1 mid = true) as Hmid.
  { vm_compute. reflexivity. }
  assert (PHYS_PFN (sampling_addr
            (snd (__damon_pa_prepare_access_check wm (one_page 1))))
          = PHYS_PFN (sampling_addr
              (snd (__damon_pa_prepare_access_check w_begun (one_page 1)))))
    as Hsame.
  { vm_compute. reflexivity. }
  exact (prepare_dedups_until_full_claim w_begun (one_page 1) (one_page 1)
           mid Hr Hg Hmid Hsame).
Defined.
